(** * krapper: the crawl / extract / filter / dedup / notify pipeline of
    [scraper.py], embedded in Rocq.

    Text is modelled by [string]; a character is a code point in
    U+0000..U+00FF, and the character classes below are the ones CPython's
    [str] methods and [re] module (Unicode patterns) use on that range.
    Sets and dictionaries are stdpp's [gset] and [gmap]; times are rationals
    (seconds); the external libraries (Scrapy, price_parser, requests,
    smtplib, urljoin) are parameters of the functions that call them. *)

From Stdlib Require Import ZArith NArith QArith Lqa Lia Bool Ascii String.
From stdpp Require Import gmap strings list.

Local Open Scope string_scope.

(* ===================================================================== *)
(** ** Characters and the [str] / [re] operations the scraper uses        *)
(* ===================================================================== *)

Module Text.

Definition code (c : ascii) : N := N_of_ascii c.

Definition between (lo hi : N) (c : ascii) : bool :=
  ((lo <=? code c) && (code c <=? hi))%N.

Definition code_is (n : N) (c : ascii) : bool := (code c =? n)%N.

(** [str.isspace], which is also the class [\s] of a Unicode pattern. *)
Definition isspace (c : ascii) : bool :=
  between 9 13 c || between 28 32 c || code_is 133 c || code_is 160 c.

(** [str.isalnum] (alphabetic, decimal, digit or numeric). *)
Definition isalnum (c : ascii) : bool :=
  between 48 57 c || between 65 90 c || between 97 122 c
  || code_is 170 c || between 178 179 c || code_is 181 c || between 185 186 c
  || between 188 190 c || between 192 214 c || between 216 246 c
  || between 248 255 c.

(** The class [\w]: alphanumeric or underscore. *)
Definition isword (c : ascii) : bool := isalnum c || code_is 95 c.

(** [str.lower] on one character. *)
Definition lower_char (c : ascii) : ascii :=
  if between 65 90 c || between 192 214 c || between 216 222 c
  then ascii_of_N (code c + 32)
  else c.

Fixpoint lower (s : string) : string :=
  match s with
  | EmptyString => EmptyString
  | String c r => String (lower_char c) (lower r)
  end.

Fixpoint lstrip (s : string) : string :=
  match s with
  | EmptyString => EmptyString
  | String c r => if isspace c then lstrip r else s
  end.

Fixpoint rstrip (s : string) : string :=
  match s with
  | EmptyString => EmptyString
  | String c r =>
      match rstrip r with
      | EmptyString => if isspace c then EmptyString else String c EmptyString
      | r' => String c r'
      end
  end.

(** [str.strip()] without argument. *)
Definition strip (s : string) : string := rstrip (lstrip s).

(** [re.sub(class, '', s)] for a one-character class: the characters of
    the class are deleted, [keep] is the complement of the class. *)
Fixpoint keep_chars (keep : ascii -> bool) (s : string) : string :=
  match s with
  | EmptyString => EmptyString
  | String c r =>
      if keep c then String c (keep_chars keep r) else keep_chars keep r
  end.

(** Python truthiness of a [str]. *)
Definition truthy (s : string) : bool :=
  match s with EmptyString => false | String _ _ => true end.

(** [s.startswith(p)]. *)
Fixpoint startswith (s p : string) : bool :=
  match p, s with
  | EmptyString, _ => true
  | String _ _, EmptyString => false
  | String b p', String a s' => Ascii.eqb a b && startswith s' p'
  end.

(** [p in s] for strings: [p] occurs in [s] as a substring. *)
Fixpoint contains (s p : string) : bool :=
  startswith s p ||
  match s with
  | EmptyString => false
  | String _ r => contains r p
  end.

(** [c in s] for one character. *)
Fixpoint has_char (c : ascii) (s : string) : bool :=
  match s with
  | EmptyString => false
  | String a r => Ascii.eqb a c || has_char c r
  end.

(** [s.split(' ')[-1]]: what follows the last space (all of [s] when it
    has none). *)
Fixpoint last_field (s : string) : string :=
  match s with
  | EmptyString => EmptyString
  | String c r =>
      if has_char " " r then last_field r
      else if Ascii.eqb c " " then r else s
  end.

(** Line boundaries of [str.splitlines]. *)
Definition islinebreak (c : ascii) : bool :=
  between 10 13 c || between 28 30 c || code_is 133 c.

(** [str.splitlines()]: [cur] is the line being read, [after_cr] tells
    that the previous character was a carriage return, so that a line
    feed coming next belongs to the same boundary. No empty last line is
    produced when the text ends in a boundary. *)
Fixpoint splitlines_from (after_cr : bool) (cur s : string) : list string :=
  match s with
  | EmptyString => if truthy cur then [cur] else []
  | String c r =>
      if after_cr && code_is 10 c then splitlines_from false EmptyString r
      else if islinebreak c then cur :: splitlines_from (code_is 13 c) EmptyString r
      else splitlines_from false (cur ++ String c EmptyString) r
  end.

Definition splitlines (s : string) : list string :=
  splitlines_from false EmptyString s.

(** For [re.sub(r'<.*?>', '', s)]: the number of characters after an
    opening [<] up to and including the first [>], when no line feed comes
    before it ([.] does not match a line feed). *)
Fixpoint tag_end (s : string) : option nat :=
  match s with
  | EmptyString => None
  | String c r =>
      if code_is 62 c then Some 1%nat
      else if code_is 10 c then None
      else S <$> tag_end r
  end.

(** [re.sub(r'<.*?>', '', s)]; [skip] counts the characters of the tag
    being deleted that are still to be dropped. *)
Fixpoint sub_tags (skip : nat) (s : string) : string :=
  match s with
  | EmptyString => EmptyString
  | String c r =>
      match skip with
      | S k => sub_tags k r
      | O =>
          if code_is 60 c then
            match tag_end r with
            | Some k => sub_tags k r
            | None => String c (sub_tags O r)
            end
          else String c (sub_tags O r)
      end
  end.

Definition strip_tags (s : string) : string := sub_tags O s.

End Text.

(* ===================================================================== *)
(** ** Log records                                                        *)
(* ===================================================================== *)

(** One constructor per [logging] call of the modelled functions, carrying
    the values the message is formatted from. *)
Inductive log_record : Type :=
  | NewListingAdded (title : string) (price : Z) (link : string)   (* info *)
  | NotificationThrottled                                          (* warning *)
  | NoNewListingsToNotify                                          (* warning *)
  | NotificationSent                                               (* info *)
  | FailedToSendNotification (e : string)                          (* error *)
  | CouldNotConvertPrice (price_str : string)                      (* error *)
  | StartingRequest (url : string)                                 (* info *)
  | ParsingResponse (url : string) (status : Z)                    (* info *)
  | NumberOfListingsFound (n : nat)                                (* info *)
  | NoListingsFound (url : string)                                 (* warning *)
  | FoundTitlePrice (title price_str : string)                     (* info *)
  | SkippingListing (title : string) (price : option Z)            (* info *)
  | TotalListingsProcessed (n : nat)                               (* info *)
  | ValidatingUrls                                                 (* info *)
  | ValidUrlAdded (url : string)                                   (* info *)
  | UrlDisallowedByRobots (url : string)                           (* warning *)
  | FailedToAccessRobots (domain : string) (status_code : Z)       (* warning *)
  | FailedToRetrieveRobots (robots_url e : string)                 (* error *)
  | InvalidUrlFormat (url : string).                               (* warning *)

(* ===================================================================== *)
(** ** DatabaseManager                                                    *)
(* ===================================================================== *)

(** A row of the table [listings], and a tuple of [new_listings]. The
    [id] column is the position of the row: rows are never deleted. *)
Record listing : Type := Listing {
  title : string;
  link : string;
  price : Z
}.

(** The object: the rows of [listings] in the database file, in rowid
    order, and the session list [self.new_listings]. The statements of the
    table always execute (no [sqlite3.Error]), and prices are integers
    SQLite stores. *)
Record DatabaseManager : Type := {
  rows : list listing;
  new_listings : list listing
}.

(** [DatabaseManager(db_path)] on a file that holds [stored]: the table is
    created only if it does not exist, the session list starts empty. *)
Definition DatabaseManager_init (stored : list listing) : DatabaseManager :=
  {| rows := stored; new_listings := [] |}.

(** [re.sub(r'[^\w\s-]', '', data).strip().lower()]. *)
Definition sanitize_input (data : string) : string :=
  Text.lower
    (Text.strip
       (Text.keep_chars
          (fun c => Text.isword c || Text.isspace c || Text.code_is 45 c) data)).

(** The constraint [UNIQUE(title, link)]: a row with this pair exists. *)
Definition conflicts (r : listing) (table : list listing) : bool :=
  existsb (fun x => String.eqb (title x) (title r) && String.eqb (link x) (link r))
          table.

(** [INSERT OR IGNORE INTO listings (title, link, price) VALUES (?, ?, ?)]:
    the table afterwards and [cursor.rowcount]. *)
Definition insert_or_ignore (r : listing) (table : list listing)
  : list listing * Z :=
  if conflicts r table then (table, 0%Z) else ((table ++ [r])%list, 1%Z).

(** [insert_listing(self, title, link, price)]; [price] is [None] or an
    integer. Returns the object afterwards and what was logged, on the calls
    that return; [insert_listing_checked], further down, has the call that
    raises. *)
Definition insert_listing (self : DatabaseManager)
    (title link : string) (price : option Z)
  : DatabaseManager * list log_record :=
  match price with
  | Some p =>
      if Text.truthy title && Text.truthy link then
        let title := sanitize_input title in
        let link := sanitize_input link in
        let '(table, rowcount) := insert_or_ignore (Listing title link p) (rows self) in
        if (0 <? rowcount)%Z then
          ({| rows := table;
              new_listings := (new_listings self ++ [Listing title link p])%list |},
           [NewListingAdded title p link])
        else ({| rows := table; new_listings := new_listings self |}, [])
      else (self, [])
  | None => (self, [])
  end.

(** The rows stored under a key, for counting them. *)
Definition stored_under (key_title key_link : string) (table : list listing)
  : list listing :=
  List.filter
    (fun x => String.eqb (title x) key_title && String.eqb (link x) key_link)
    table.

Definition get_new_listings (self : DatabaseManager) : list listing :=
  new_listings self.

(** [SELECT title, link, price FROM listings]. *)
Definition fetch_all_listings (self : DatabaseManager) : list listing :=
  rows self.

(* ===================================================================== *)
(** ** Settings and the outside world                                     *)
(* ===================================================================== *)

(** The values read from [config.json] that the modelled functions use.
    The module exits at start-up unless [min_price < max_price]. *)
Class Settings : Type := {
  EMAIL_SENDER : string;
  EMAIL_RECIPIENT : string;
  USER_AGENT : string;
  min_price : Z;
  max_price : Z
}.

(** The message handed to [smtplib]: headers, and the listings the HTML
    template is rendered with. *)
Record email : Type := {
  Subject : string;
  From : string;
  To : string;
  listings : list listing
}.

(** How the SMTP session ([SMTP(...)], [starttls], [login],
    [send_message]) ends. *)
Inductive smtp_outcome : Type :=
  | Delivered
  | SMTPException (e : string)       (* the exception the function catches *)
  | OtherException (e : string).     (* any other, e.g. a refused connection *)

(** A node selected on a page: [node.css(query).get()]. *)
Record Selector : Type := { css_get : string -> option string }.

(** A downloaded page: [response.css(query)] gives the matching nodes. *)
Record Response : Type := {
  url : string;
  status : Z;
  css : string -> list Selector
}.

(** What the downloader does with a request. *)
Inductive download_outcome : Type :=
  | Downloaded (response : Response)
  | DownloadFailed (reason : string).

(** What [requests.get] does. *)
Inductive http_outcome : Type :=
  | HttpResponse (status_code : Z) (text : string)
  | RequestException (e : string).

(** The libraries and services the scraper calls. *)
Class World : Type := {
  (** [price_parser.Price.fromstring(s).amount] *)
  Price_fromstring : string -> option Q;
  (** [urllib.parse.urljoin(base, url)]; [url] may be [None] *)
  urljoin : string -> option string -> string;
  (** the check [urlsplit] makes of a host written in brackets *)
  check_bracketed_netloc : string -> bool;
  (** [requests.get(url)] *)
  requests_get : string -> http_outcome;
  (** the SMTP session that sends a message *)
  smtp_session : email -> smtp_outcome;
  (** Scrapy's downloader on the URL of a request *)
  download : string -> download_outcome
}.

(** A call returns a value or raises. *)
Inductive outcome (A : Type) : Type :=
  | Returned (a : A)
  | Raised (e : string).
Arguments Returned {A} a.
Arguments Raised {A} e.

(* ===================================================================== *)
(** ** Email notification                                                 *)
(* ===================================================================== *)

Definition Qltb (a b : Q) : bool := negb (Qle_bool b a).

(** The effects of one call of [send_notification]. *)
Record notification : Type := {
  (** the global [last_notification_time] after the call *)
  last_notification_time : Q;
  logged : list log_record;
  (** the messages for which an SMTP session was opened *)
  dispatched : list email;
  (** [Returned tt], or the exception that leaves the function *)
  result : outcome unit
}.

(** The message built from the rendered template and the settings. *)
Definition notification_email `{Settings} (new_listings : list listing) : email :=
  {| Subject := "Scraper Notification - New Listings Found";
     From := EMAIL_SENDER; To := EMAIL_RECIPIENT;
     listings := new_listings |}.

(** The throttle window, in seconds. *)
Definition throttle_window : Q := 3600.

(** [send_notification(new_listings)], called when the global
    [last_notification_time] is [last]; [now] and [now'] are the two
    successive readings of [time.time()], the one compared and the one
    stored. *)
Definition send_notification `{Settings} `{World}
    (now now' : Q) (new_listings : list listing) (last : Q) : notification :=
  if Qltb (now - last) throttle_window then
    {| last_notification_time := last; logged := [NotificationThrottled];
       dispatched := []; result := Returned tt |}
  else
    match new_listings with
    | [] =>
        {| last_notification_time := now'; logged := [NoNewListingsToNotify];
           dispatched := []; result := Returned tt |}
    | _ =>
        let msg := notification_email new_listings in
        match smtp_session msg with
        | Delivered =>
            {| last_notification_time := now'; logged := [NotificationSent];
               dispatched := [msg]; result := Returned tt |}
        | SMTPException e =>
            {| last_notification_time := now';
               logged := [FailedToSendNotification e];
               dispatched := [msg]; result := Returned tt |}
        | OtherException e =>
            {| last_notification_time := now'; logged := [];
               dispatched := [msg]; result := Raised e |}
        end
    end.

(* ===================================================================== *)
(** ** Price parsing                                                      *)
(* ===================================================================== *)

(** [int(amount)] for a [Decimal]: truncation towards zero. *)
Definition int_of_amount (amount : Q) : Z :=
  Z.quot (Qnum amount) (Z.pos (Qden amount)).

(** [parse_price(price_str)]. *)
Definition parse_price `{World} (price_str : string)
  : option Z * list log_record :=
  match Price_fromstring price_str with
  | Some amount => (Some (int_of_amount amount), [])
  | None => (None, [CouldNotConvertPrice price_str])
  end.

(* ===================================================================== *)
(** ** The spider                                                         *)
(* ===================================================================== *)

(** A value of the dictionary [selectors]. *)
Record selector_set : Type := {
  listing_item : string;
  title_selector : string;      (* key 'title' *)
  price_selector : string       (* key 'price' *)
}.

(** [scrapy.Request(url=..., callback=self.parse)]. *)
Record Request : Type := { request_url : string }.

Record Pavouk : Type := {
  urls : list string;
  db_manager : DatabaseManager;
  selectors : gmap string selector_set;
  current_url_index : nat
}.

(** [Pavouk(urls, db_manager, selectors)]. *)
Definition Pavouk_init (urls : list string) (db_manager : DatabaseManager)
    (selectors : gmap string selector_set) : Pavouk :=
  {| urls := urls; db_manager := db_manager; selectors := selectors;
     current_url_index := 0 |}.

Definition make_request (self : Pavouk) : option Request * list log_record :=
  if (current_url_index self <? length (urls self))%nat then
    match urls self !! current_url_index self with
    | Some current_url =>
        (Some {| request_url := current_url |}, [StartingRequest current_url])
    | None => (None, [])
    end
  else (None, []).

(** The requests a generator yields: one or none. *)
Definition yielded (request : option Request) : list Request :=
  match request with Some r => [r] | None => [] end.

Definition start_requests (self : Pavouk) : list Request * list log_record :=
  let '(request, log) := make_request self in (yielded request, log).

(** [re.sub(r'<.*?>', '', element).strip() if element else fallback]. *)
Definition element_text (element : option string) (fallback : string) : string :=
  match element with
  | Some e => if Text.truthy e then Text.strip (Text.strip_tags e) else fallback
  | None => fallback
  end.

(** The body of the loop of [parse] over the listing nodes: the store,
    the counter [listings_found] and the log before and after one node. *)
Definition parse_listing `{Settings} `{World}
    (response_url : string) (url_selectors : selector_set)
    (acc : DatabaseManager * nat * list log_record) (node : Selector)
  : DatabaseManager * nat * list log_record :=
  let '(db, listings_found, log) := acc in
  let title := element_text (css_get node (title_selector url_selectors))
                            "No title found" in
  let price_str := element_text (css_get node (price_selector url_selectors))
                                "No price found" in
  let '(price, log_price) := parse_price price_str in
  let log := (log ++ [FoundTitlePrice title price_str] ++ log_price)%list in
  match price with
  | Some p =>
      if ((min_price <=? p) && (p <=? max_price))%Z then
        let link := urljoin response_url (css_get node "a::attr(href)") in
        let '(db', log_insert) := insert_listing db title link (Some p) in
        (db', S listings_found, (log ++ log_insert)%list)
      else (db, listings_found, (log ++ [SkippingListing title price])%list)
  | None => (db, listings_found, (log ++ [SkippingListing title price])%list)
  end.

(** [parse(self, response)] when no call in it raises: the spider
    afterwards, the requests yielded and the log. The pause at the end is
    not modelled; [parse_checked], further down, is [parse] with its
    exceptions. *)
Definition parse `{Settings} `{World} (self : Pavouk) (response : Response)
  : Pavouk * list Request * list log_record :=
  let '(db, log) :=
    match selectors self !! url response with
    | Some url_selectors =>
        let nodes := css response (listing_item url_selectors) in
        match nodes with
        | [] => (db_manager self,
                 [NumberOfListingsFound 0; NoListingsFound (url response)])
        | _ =>
            let '(db, listings_found, log) :=
              fold_left (parse_listing (url response) url_selectors) nodes
                        (db_manager self, 0%nat,
                         [NumberOfListingsFound (length nodes)]) in
            (db, (log ++ [TotalListingsProcessed listings_found])%list)
        end
    | None => (db_manager self, [])
    end in
  let self' := {| urls := urls self; db_manager := db;
                  selectors := selectors self;
                  current_url_index := S (current_url_index self) |} in
  let '(next_request, log_next) := make_request self' in
  (self', yielded next_request,
   (ParsingResponse (url response) (status response) :: log ++ log_next)%list).

(* ===================================================================== *)
(** ** The crawl: Scrapy's engine running the spider                      *)
(* ===================================================================== *)

(** The engine keeps the requests not yet downloaded. It downloads the
    first; on a response it runs the request's callback, [parse], and
    queues what it yields; on a failure (a transport error, or a status the
    engine does not pass on) it has nothing to run, since the requests carry
    no errback. This is the engine on runs in which the callback raises
    nothing and the scheduler drops no request; [Run], further down, is
    the engine with both. *)
Record Crawl : Type := {
  spider : Pavouk;
  pending : list Request;
  requested : list string;       (* URLs handed to the downloader, in order *)
  crawl_log : list log_record
}.

Definition crawl_start (self : Pavouk) : Crawl :=
  let '(requests, log) := start_requests self in
  {| spider := self; pending := requests; requested := []; crawl_log := log |}.

(** One download and what follows it; [None] when nothing is pending: the
    spider is closed. *)
Definition crawl_step `{Settings} `{World} (c : Crawl) : option Crawl :=
  match pending c with
  | [] => None
  | request :: queue =>
      let requested' := (requested c ++ [request_url request])%list in
      match download (request_url request) with
      | Downloaded response =>
          let '(self', requests, log) := parse (spider c) response in
          Some {| spider := self'; pending := (queue ++ requests)%list;
                  requested := requested';
                  crawl_log := (crawl_log c ++ log)%list |}
      | DownloadFailed _ =>
          Some {| spider := spider c; pending := queue;
                  requested := requested'; crawl_log := crawl_log c |}
      end
  end.

(** At most [n] steps. *)
Fixpoint crawl_steps `{Settings} `{World} (n : nat) (c : Crawl) : Crawl :=
  match n with
  | O => c
  | S n' =>
      match crawl_step c with
      | Some c' => crawl_steps n' c'
      | None => c
      end
  end.

(** The crawl of a spider over its URL list. Every step that runs [parse]
    moves the cursor, and a step without [parse] empties the queue, so as
    many steps as there are URLs reach the state in which nothing is
    pending. *)
Definition crawl `{Settings} `{World} (self : Pavouk) : Crawl :=
  crawl_steps (length (urls self)) (crawl_start self).

(** The crawl is in sequence when the one pending request, if any, is the
    one under the cursor, and the URLs requested so far are those before
    the cursor. *)
Definition in_sequence (c : Crawl) : Prop :=
  pending c = yielded (fst (make_request (spider c)))
  /\ requested c = take (current_url_index (spider c)) (urls (spider c)).

(* ===================================================================== *)
(** ** URL validation                                                     *)
(* ===================================================================== *)

(** A literal of a pattern compiled with [re.IGNORECASE], matched at the
    start of [s]: what is left of [s]. The literal is in lower case. *)
Fixpoint match_literal (literal s : string) : option string :=
  match literal with
  | EmptyString => Some s
  | String b literal' =>
      match s with
      | String a s' =>
          if Ascii.eqb (Text.lower_char a) b then match_literal literal' s'
          else None
      | EmptyString => None
      end
  end.

(** [[^\s]*$]: characters that are not white space up to the end of the
    text, or up to a line feed that ends it. *)
Fixpoint match_nonspace_end (s : string) : bool :=
  match s with
  | EmptyString => true
  | String c r =>
      if Text.isspace c
      then Text.code_is 10 c && negb (Text.truthy r)
      else match_nonspace_end r
  end.

(** [[^\s/$.?#].[^\s]*$]. *)
Definition match_after_scheme (s : string) : bool :=
  match s with
  | String c1 (String c2 r) =>
      negb (Text.isspace c1 || Text.has_char c1 "/$.?#")
      && negb (Text.code_is 10 c2)
      && match_nonspace_end r
  | _ => false
  end.

(** [url_pattern.match(url)] for
    [r'^(?:http|https)://[^\s/$.?#].[^\s]*$'], ignoring case: the two
    alternatives are tried in turn. *)
Definition url_pattern_match (url : string) : bool :=
  match match_literal "http://" url with
  | Some r => match_after_scheme r
  | None => false
  end
  ||
  match match_literal "https://" url with
  | Some r => match_after_scheme r
  | None => false
  end.

(** [urlsplit]: the text before and after the first colon. *)
Fixpoint partition_colon (s : string) : option (string * string) :=
  match s with
  | EmptyString => None
  | String c r =>
      if Text.code_is 58 c then Some (EmptyString, r)
      else
        match partition_colon r with
        | Some (before, after) => Some (String c before, after)
        | None => None
        end
  end.

Definition ascii_letter (c : ascii) : bool :=
  Text.between 65 90 c || Text.between 97 122 c.

(** [c in scheme_chars]. *)
Definition scheme_char (c : ascii) : bool :=
  ascii_letter c || Text.between 48 57 c
  || Text.code_is 43 c || Text.code_is 45 c || Text.code_is 46 c.

Fixpoint all_chars (p : ascii -> bool) (s : string) : bool :=
  match s with
  | EmptyString => true
  | String c r => p c && all_chars p r
  end.

(** [urlsplit]: the URL without its scheme and colon, when it has one. *)
Definition drop_scheme (url : string) : string :=
  match partition_colon url with
  | Some (String c0 _ as before, after) =>
      if ascii_letter c0 && all_chars scheme_char before then after else url
  | _ => url
  end.

(** [_splitnetloc(url, 2)]: the characters before the first of [/?#]. *)
Fixpoint before_delimiter (s : string) : string :=
  match s with
  | EmptyString => EmptyString
  | String c r =>
      if Text.has_char c "/?#" then EmptyString
      else String c (before_delimiter r)
  end.

(** [url.lstrip(...)] of the control characters and the space. *)
Fixpoint lstrip_c0 (s : string) : string :=
  match s with
  | EmptyString => EmptyString
  | String c r => if Text.between 0 32 c then lstrip_c0 r else s
  end.

(** Tabs, carriage returns and line feeds are removed from the URL. *)
Definition remove_unsafe (s : string) : string :=
  Text.keep_chars
    (fun c => negb (Text.code_is 9 c || Text.code_is 13 c || Text.code_is 10 c)) s.

(** [urlparse(url).netloc]; [None] stands for the [ValueError] that
    [urlsplit] raises on a host with unbalanced or ill-formed brackets. On
    the characters modelled, the NFKC test of the host never raises. *)
Definition urlparse_netloc `{World} (url : string) : option string :=
  match drop_scheme (remove_unsafe (lstrip_c0 url)) with
  | String "/" (String "/" r) =>
      let netloc := before_delimiter r in
      let opening := Text.has_char "[" netloc in
      let closing := Text.has_char "]" netloc in
      if opening && closing then
        if check_bracketed_netloc netloc then Some netloc else None
      else if opening || closing then None
      else Some netloc
  | _ => Some EmptyString
  end.

(** The comprehension that reads the robots file: the last field of every
    line that starts with [Disallow:] and in which the user agent occurs. *)
Definition disallowed_paths `{Settings} (text : string) : list string :=
  map Text.last_field
      (List.filter
         (fun line => Text.startswith line "Disallow:"
                      && Text.contains line USER_AGENT)
         (Text.splitlines text)).

(** [any(url.startswith(f"https://{domain}{path}") for path in paths)]. *)
Definition disallowed (url domain : string) (paths : list string) : bool :=
  existsb (fun path => Text.startswith url ("https://" ++ domain ++ path)) paths.

(** One round of the loop of [validate_urls] on the set and the log built
    so far. The [ValueError] of [urlparse] is not caught. *)
Definition validate_url `{Settings} `{World}
    (url : string) (acc : gset string * list log_record)
  : outcome (gset string * list log_record) :=
  let '(valid_urls, log) := acc in
  if url_pattern_match url then
    match urlparse_netloc url with
    | None => Raised "ValueError"
    | Some domain =>
        let robots_url := "https://" ++ domain ++ "/robots.txt" in
        match requests_get robots_url with
        | HttpResponse status_code text =>
            if (status_code =? 200)%Z then
              if negb (disallowed url domain (disallowed_paths text)) then
                Returned (valid_urls ∪ {[url]}, (log ++ [ValidUrlAdded url])%list)
              else
                Returned (valid_urls, (log ++ [UrlDisallowedByRobots url])%list)
            else
              Returned (valid_urls,
                        (log ++ [FailedToAccessRobots domain status_code])%list)
        | RequestException e =>
            Returned (valid_urls,
                      (log ++ [FailedToRetrieveRobots robots_url e])%list)
        end
    end
  else Returned (valid_urls, (log ++ [InvalidUrlFormat url])%list).

Fixpoint validate_loop `{Settings} `{World}
    (urls : list string) (acc : gset string * list log_record)
  : outcome (gset string * list log_record) :=
  match urls with
  | [] => Returned acc
  | url :: rest =>
      match validate_url url acc with
      | Returned acc' => validate_loop rest acc'
      | Raised e => Raised e
      end
  end.

(** [validate_urls(urls)]: the set [valid_urls], of which the function
    returns the elements as a list in no particular order, and the log. *)
Definition validate_urls `{Settings} `{World} (urls : list string)
  : outcome (gset string * list log_record) :=
  validate_loop urls (∅, [ValidatingUrls]).

(** The admitted set of a call that returns. *)
Definition admitted `{Settings} `{World} (urls : list string)
  : option (gset string) :=
  match validate_urls urls with
  | Returned (valid_urls, _) => Some valid_urls
  | Raised _ => None
  end.

(** The exclusion rule in the words of the design: the path of the URL,
    what follows its host, falls under a disallowed prefix of the robots
    file. *)
Definition path_disallowed `{Settings} (robots_text path : string) : bool :=
  existsb (fun prefix => Text.startswith path prefix)
          (disallowed_paths robots_text).

(* ===================================================================== *)
(** ** A sample configuration and world, for concrete runs                *)
(* ===================================================================== *)

Module Sample.

(** The settings of [DEFAULT_CONFIG]. *)
Definition settings : Settings :=
  {| EMAIL_SENDER := "default@example.com";
     EMAIL_RECIPIENT := "recipient@example.com";
     USER_AGENT := "my_scraper";
     min_price := 1000; max_price := 2000 |}.

Definition LF : string := String (ascii_of_N 10) EmptyString.

(** A price reader that is enough for the texts of the examples: the
    decimal digits of the text, read as one integer. *)
Fixpoint digits_value (acc : option Z) (s : string) : option Z :=
  match s with
  | EmptyString => acc
  | String c r =>
      if Text.between 48 57 c
      then digits_value (Some (10 * default 0 acc + (Z.of_N (Text.code c) - 48))%Z) r
      else digits_value acc r
  end.

Definition digits_amount (s : string) : option Q :=
  inject_Z <$> digits_value None s.

(** [urljoin] on the references of the examples: an absolute path
    replaces the path of an https base, no reference gives the base. *)
Definition join_root (base : string) (reference : option string) : string :=
  match reference with
  | Some (String "/" _ as path) =>
      match match_literal "https://" base with
      | Some r => "https://" ++ before_delimiter r ++ path
      | None => path
      end
  | Some other => other
  | None => base
  end.

Definition site : string := "https://a.example/list".

Definition site_selectors : selector_set :=
  {| listing_item := "div.listing"; title_selector := "h2";
     price_selector := "span.price" |}.

(** The one listing node of the page of [site]. *)
Definition flat : Selector :=
  {| css_get := fun query =>
       if String.eqb query "h2" then Some "<h2>Nice Flat</h2>"
       else if String.eqb query "span.price" then Some "<span>$1,200</span>"
       else if String.eqb query "a::attr(href)" then Some "/x"
       else None |}.

Definition page : Response :=
  {| url := site; status := 200;
     css := fun query => if String.eqb query "div.listing" then [flat] else [] |}.

(** A robots file that disallows [/my_scraper/] for the agent. *)
Definition robots_txt : string :=
  "User-agent: my_scraper" ++ LF ++ "Disallow: /my_scraper/".

(** A second site, whose page matches no selector, and a site that is
    down. *)
Definition other_site : string := "https://b.example/flats".

Definition other_page : Response :=
  {| url := other_site; status := 200; css := fun _ => [] |}.

Definition down_site : string := "https://down.example/list".

(** A world in which [site] and [other_site] are served, every other
    download fails, the host [a.example] serves [robots_txt], and mail ends
    as [mail] says. *)
Definition world (mail : smtp_outcome) : World :=
  {| Price_fromstring := digits_amount;
     urljoin := join_root;
     check_bracketed_netloc := fun _ => true;
     requests_get := fun robots_url =>
       if String.eqb robots_url "https://a.example/robots.txt"
       then HttpResponse 200 robots_txt
       else RequestException "ConnectionError";
     smtp_session := fun _ => mail;
     download := fun request_url =>
       if String.eqb request_url site then Downloaded page
       else if String.eqb request_url other_site then Downloaded other_page
       else DownloadFailed "DNSLookupError" |}.

Definition selectors : gmap string selector_set := {[ site := site_selectors ]}.

(** The record the page of [site] leads to. *)
Definition nice_flat : listing := Listing "nice flat" "httpsaexamplex" 1200.

End Sample.

(* ===================================================================== *)
(** ** The store over several calls                                       *)
(* ===================================================================== *)

(** The pair the constraint [UNIQUE(title, link)] is about. *)
Definition listing_key (r : listing) : string * string := (title r, link r).

(** No two rows of the table hold the same pair. *)
Definition unique_keys (table : list listing) : Prop :=
  NoDup (map listing_key table).

(** Calls of [insert_listing] one after the other, each with its title,
    link and price. *)
Definition insert_all (self : DatabaseManager)
    (calls : list (string * string * option Z)) : DatabaseManager :=
  fold_left (fun db '(t, l, p) => fst (insert_listing db t l p)) calls self.

(** The characters [sanitize_input] lets through, as it leaves them: word
    characters, white space and the hyphen, in lower case. *)
Definition sanitized_char (c : ascii) : bool :=
  (Text.isword c || Text.isspace c || Text.code_is 45 c)
  && Ascii.eqb (Text.lower_char c) c.

(** A text that does not start with white space. *)
Definition starts_clean (s : string) : bool :=
  match s with
  | EmptyString => true
  | String c _ => negb (Text.isspace c)
  end.

(** A record whose title and link [sanitize_input] leaves as they are. *)
Definition sanitized_record (r : listing) : Prop :=
  sanitize_input (title r) = title r /\ sanitize_input (link r) = link r.

(* ===================================================================== *)
(** ** The notifier over several calls                                    *)
(* ===================================================================== *)

(** A call of [send_notification]: its two readings of the clock and the
    list it is given. *)
Record notifier_call : Type := {
  checked_at : Q;
  stamped_at : Q;
  offered : list listing
}.

(** Calls one after the other, each on the global the one before left. *)
Fixpoint send_notifications `{Settings} `{World}
    (calls : list notifier_call) (last : Q) : list notification :=
  match calls with
  | [] => []
  | c :: rest =>
      let n := send_notification (checked_at c) (stamped_at c) (offered c) last in
      n :: send_notifications rest (last_notification_time n)
  end.

(* ===================================================================== *)
(** ** What a page offers to the store                                    *)
(* ===================================================================== *)

(** A record whose price lies in the configured band, bounds included. *)
Definition in_band `{Settings} (r : listing) : Prop :=
  (min_price <= price r <= max_price)%Z.

(** The call of [insert_listing] that the loop of [parse] makes for a
    node, if it makes one: the title text, the resolved link and the price,
    when the price is read and lies in the band. *)
Definition offered_listing `{Settings} `{World}
    (response_url : string) (url_selectors : selector_set) (node : Selector)
  : option (string * string * option Z) :=
  let title := element_text (css_get node (title_selector url_selectors))
                            "No title found" in
  let price_str := element_text (css_get node (price_selector url_selectors))
                                "No price found" in
  match fst (parse_price price_str) with
  | Some p =>
      if ((min_price <=? p) && (p <=? max_price))%Z
      then Some (title, urljoin response_url (css_get node "a::attr(href)"), Some p)
      else None
  | None => None
  end.

(** The calls a page leads to, in the order of its nodes: none when the
    dictionary of selectors has no entry for the URL of the response. *)
Definition offered_listings `{Settings} `{World}
    (selectors : gmap string selector_set) (response : Response)
  : list (string * string * option Z) :=
  match selectors !! url response with
  | Some url_selectors =>
      omap (offered_listing (url response) url_selectors)
           (css response (listing_item url_selectors))
  | None => []
  end.

(* ===================================================================== *)
(** ** URL validation, one URL at a time                                  *)
(* ===================================================================== *)

(** The tests a URL goes through in the loop of [validate_urls], put
    together: it matches the pattern, its robots file is served with
    status 200, and no disallowed path of that file matches it. *)
Definition passes `{Settings} `{World} (url : string) : bool :=
  url_pattern_match url
  && match urlparse_netloc url with
     | Some domain =>
         match requests_get ("https://" ++ domain ++ "/robots.txt") with
         | HttpResponse status_code text =>
             (status_code =? 200)%Z
             && negb (disallowed url domain (disallowed_paths text))
         | RequestException _ => false
         end
     | None => false
     end.

(** The URL on which [urlparse] raises: it matches the pattern and its
    host has brackets that [urlsplit] refuses. *)
Definition breaks_urlparse `{World} (url : string) : bool :=
  url_pattern_match url
  && match urlparse_netloc url with Some _ => false | None => true end.

(* ===================================================================== *)
(** ** The main block                                                     *)
(* ===================================================================== *)

(** An element of the list [urls] of [adresy.yaml]: a dictionary that may
    lack the key [url] or the key [selectors]. *)
Record site_entry : Type := {
  entry_url : option string;
  entry_selectors : option selector_set
}.

(** [{url['url']: url['selectors'] for url in urls_with_selectors if
    'selectors' in url}], built on [acc]: a later entry replaces an earlier
    one with the same URL; [None] stands for the [KeyError] of an entry with
    selectors and no URL. *)
Fixpoint selectors_of (entries : list site_entry)
    (acc : gmap string selector_set) : option (gmap string selector_set) :=
  match entries with
  | [] => Some acc
  | entry :: rest =>
      match entry_selectors entry with
      | Some url_selectors =>
          match entry_url entry with
          | Some u => selectors_of rest (<[u := url_selectors]> acc)
          | None => None
          end
      | None => selectors_of rest acc
      end
  end.

(** What the main block logs and prints. *)
Inductive main_record : Type :=
  | NoValidUrls                                       (* error *)
  | ValidUrlsAndPriceRange (valid_urls : list string) (* info *)
  | FetchingAllListings                               (* info *)
  | TotalListingsFetched (n : nat)                    (* info *)
  | Printed (r : listing)                             (* stdout *)
  | NoListingsInDatabase                              (* info *)
  | NewListingsDetected                               (* info *)
  | NewListingFound (r : listing)                     (* info *)
  | NoNewListingsDetected                             (* info *)
  | DatabaseConnectionClosed.                         (* info *)

(** How the main block ends. *)
Inductive main_end : Type :=
  | MainRaised (e : string)
  | MainExit (code : Z) (output : list main_record)
  | MainFinished (c : Crawl) (output : list main_record).

(** The main block on the entries of the YAML file and the rows the
    database holds; [list_of_set] is the order in which [list(valid_urls)]
    gives the elements of the set. [load_yaml_config] and the log of
    [validate_urls] are left aside. *)
Definition main `{Settings} `{World}
    (list_of_set : gset string -> list string)
    (entries : list site_entry) (stored : list listing) : main_end :=
  match selectors_of entries ∅ with
  | None => MainRaised "KeyError"
  | Some selectors =>
      match mapM entry_url entries with
      | None => MainRaised "KeyError"
      | Some _ =>
          match validate_urls (omap entry_url entries) with
          | Raised e => MainRaised e
          | Returned (valid_set, _) =>
              match list_of_set valid_set with
              | [] => MainExit 1 [NoValidUrls]
              | valid_urls =>
                  let db := DatabaseManager_init stored in
                  let c := crawl (Pavouk_init valid_urls db selectors) in
                  let all_listings := fetch_all_listings (db_manager (spider c)) in
                  let new_listings := get_new_listings (db_manager (spider c)) in
                  MainFinished c
                    ([ValidUrlsAndPriceRange valid_urls; FetchingAllListings]
                     ++ match all_listings with
                        | [] => [NoListingsInDatabase]
                        | _ => TotalListingsFetched (length all_listings)
                               :: map Printed all_listings
                        end
                     ++ match new_listings with
                        | [] => [NoNewListingsDetected]
                        | _ => NewListingsDetected :: map NewListingFound new_listings
                        end
                     ++ [DatabaseConnectionClosed])%list
              end
          end
      end
  end.

(* ===================================================================== *)
(** ** Loading and validating the configuration                           *)
(* ===================================================================== *)

Module Startup.

(** A [float]: a finite value, an infinity or not-a-number. *)
Inductive float_value : Type :=
  | Finite (q : Q)
  | Infinity (negative : bool)
  | NaN.

(** What [json.load] returns. *)
#[warnings="-register-all"]
Inductive json : Type :=
  | JNull
  | JBool (b : bool)
  | JInt (z : Z)
  | JFloat (x : float_value)
  | JStr (s : string)
  | JList (items : list json)
  | JDict (items : gmap string json).

(** [value[key]] for a string [key]: only a dictionary can be subscripted
    by a string. *)
Definition subscript (value : json) (key : string) : outcome json :=
  match value with
  | JDict items =>
      match items !! key with
      | Some v => Returned v
      | None => Raised "KeyError"
      end
  | _ => Raised "TypeError"
  end.

(** [key in value] for a string [key]: a key of a dictionary, a substring
    of a string, an element of a list; the other values are not
    containers. *)
Definition contains (value : json) (key : string) : outcome bool :=
  match value with
  | JDict items => Returned (bool_decide (is_Some (items !! key)))
  | JStr s => Returned (Text.contains s key)
  | JList items =>
      Returned (existsb (fun v => match v with
                                  | JStr s => String.eqb s key
                                  | _ => false
                                  end) items)
  | _ => Raised "TypeError"
  end.

Definition DEFAULT_CONFIG : json :=
  JDict {[
    "email_settings" :=
      JDict {[ "EMAIL_SENDER" := JStr "default@example.com";
               "EMAIL_PASSWORD" := JStr "password";
               "SMTP_SERVER" := JStr "smtp.example.com";
               "EMAIL_RECIPIENT" := JStr "recipient@example.com" ]};
    "search_config" :=
      JDict {[ "price_range" := JDict {[ "min" := JInt 1000; "max" := JInt 2000 ]} ]};
    "scrapy_settings" :=
      JDict {[ "DOWNLOAD_DELAY" := JInt 2;
               "CONCURRENT_REQUESTS" := JInt 16;
               "COOKIES_ENABLED" := JBool true;
               "USER_AGENT" := JStr "my_scraper" ]}
  ]}.

(** What opening and reading [config.json] gives. *)
Inductive config_file : Type :=
  | FileNotFoundError
  | JSONDecodeError
  | Parsed (config : json)
  | OtherError (e : string).      (* not caught, e.g. a permission error *)

(** The log of the start-up. *)
Inductive startup_record : Type :=
  | LoadingConfiguration                       (* info *)
  | ConfigurationLoaded                        (* info *)
  | ConfigurationFileError                     (* error: "Using defaults." *)
  | ValidatingConfiguration                    (* info *)
  | MissingRequiredKey (key : string)          (* error *)
  | InvalidPriceRange                          (* error *)
  | PriceRangeValidated (min max : json).      (* info *)

Definition load_config (file : config_file) : outcome json * list startup_record :=
  match file with
  | Parsed config => (Returned config, [LoadingConfiguration; ConfigurationLoaded])
  | FileNotFoundError | JSONDecodeError =>
      (Returned DEFAULT_CONFIG, [LoadingConfiguration; ConfigurationFileError])
  | OtherError e => (Raised e, [LoadingConfiguration])
  end.

(** The globals the module sets while it is loaded. *)
Record globals : Type := {
  EMAIL_SENDER : json;
  EMAIL_PASSWORD : json;
  SMTP_SERVER : json;
  EMAIL_RECIPIENT : json;
  SEARCH_CONFIG : json;
  SELECTORS : json;
  SCRAPY_SETTINGS : json;
  URLS : json;
  min_price : json;
  max_price : json
}.

(** How loading the module ends: it goes on, an exception leaves it, or
    [exit] is called. *)
Inductive startup_end : Type :=
  | Started (g : globals)
  | StartupRaised (e : string)
  | StartupExit (code : Z).

Definition bind {A B : Type} (x : outcome A) (f : A -> outcome B) : outcome B :=
  match x with
  | Returned a => f a
  | Raised e => Raised e
  end.

(** The statements "Extract settings": every one subscripts [config]. *)
Definition extract_settings (config : json)
  : outcome (json * json * json * json * json * json * json * json) :=
  bind (bind (subscript config "email_settings") (fun s => subscript s "EMAIL_SENDER"))
  (fun sender =>
  bind (bind (subscript config "email_settings") (fun s => subscript s "EMAIL_PASSWORD"))
  (fun password =>
  bind (bind (subscript config "email_settings") (fun s => subscript s "SMTP_SERVER"))
  (fun server =>
  bind (bind (subscript config "email_settings") (fun s => subscript s "EMAIL_RECIPIENT"))
  (fun recipient =>
  bind (subscript config "search_config") (fun search_config =>
  bind (subscript config "selectors") (fun selectors =>
  bind (subscript config "scrapy_settings") (fun scrapy_settings =>
  bind (subscript config "urls") (fun urls =>
  Returned (sender, password, server, recipient,
            search_config, selectors, scrapy_settings, urls))))))))).

Definition required_keys : list string :=
  ["email_settings"; "search_config"; "selectors"; "urls"].

(** The loop over [required_keys]: the first key that is not in [config],
    if any. *)
Fixpoint first_missing (config : json) (keys : list string)
  : outcome (option string) :=
  match keys with
  | [] => Returned None
  | key :: rest =>
      match contains config key with
      | Returned true => first_missing config rest
      | Returned false => Returned (Some key)
      | Raised e => Raised e
      end
  end.

(** The module-level statements from [config = load_config()] to the
    validation of the price range; [ge] is the comparison [>=] of the
    language on the two values read. *)
Definition startup (ge : json -> json -> outcome bool) (file : config_file)
  : startup_end * list startup_record :=
  match load_config file with
  | (Raised e, log) => (StartupRaised e, log)
  | (Returned config, log) =>
      match extract_settings config with
      | Raised e => (StartupRaised e, log)
      | Returned (sender, password, server, recipient,
                  search_config, selectors, scrapy_settings, urls) =>
          let log := (log ++ [ValidatingConfiguration])%list in
          match first_missing config required_keys with
          | Raised e => (StartupRaised e, log)
          | Returned (Some key) =>
              (StartupExit 1, (log ++ [MissingRequiredKey key])%list)
          | Returned None =>
              match bind (subscript search_config "price_range")
                         (fun r => subscript r "min") with
              | Raised e => (StartupRaised e, log)
              | Returned min =>
                  match bind (subscript search_config "price_range")
                             (fun r => subscript r "max") with
                  | Raised e => (StartupRaised e, log)
                  | Returned max =>
                      match ge min max with
                      | Raised e => (StartupRaised e, log)
                      | Returned true =>
                          (StartupExit 1, (log ++ [InvalidPriceRange])%list)
                      | Returned false =>
                          (Started {| EMAIL_SENDER := sender;
                                      EMAIL_PASSWORD := password;
                                      SMTP_SERVER := server;
                                      EMAIL_RECIPIENT := recipient;
                                      SEARCH_CONFIG := search_config;
                                      SELECTORS := selectors;
                                      SCRAPY_SETTINGS := scrapy_settings;
                                      URLS := urls;
                                      min_price := min; max_price := max |},
                           (log ++ [PriceRangeValidated min max])%list)
                      end
                  end
              end
          end
      end
  end.

(** The comparison [>=] on two integers, and a [TypeError] on the pairs
    of values of the examples that are not two integers. *)
Definition ge_int (a b : json) : outcome bool :=
  match a, b with
  | JInt x, JInt y => Returned (y <=? x)%Z
  | _, _ => Raised "TypeError"
  end.

(** A configuration with every key the start-up reads: the defaults
    with the keys [selectors] and [urls] added. *)
Definition sample_config : json :=
  match DEFAULT_CONFIG with
  | JDict items =>
      JDict (<["selectors" := JDict ∅]> (<["urls" := JList []]> items))
  | other => other
  end.

End Startup.

(* ===================================================================== *)
(** ** Text without tags                                                  *)
(* ===================================================================== *)

(** A text in which no [<] is followed on its line by a [>], so that the
    pattern [<.*?>] matches nowhere in it. *)
Fixpoint tag_free (s : string) : bool :=
  match s with
  | EmptyString => true
  | String c r =>
      (if Text.code_is 60 c
       then match Text.tag_end r with Some _ => false | None => true end
       else true)
      && tag_free r
  end.

(* ===================================================================== *)
(** ** The integers SQLite stores                                         *)
(* ===================================================================== *)

(** The values of the column [price INTEGER]: integers of 64 bits with a
    sign. *)
Definition fits_int64 (p : Z) : bool :=
  ((- 2 ^ 63 <=? p) && (p <? 2 ^ 63))%Z.

Definition price_fits (price : option Z) : bool :=
  match price with Some p => fits_int64 p | None => true end.

(** The exception that leaves [insert_listing]. When the guard passes,
    [cursor.execute] binds the price before the statement runs: a price
    outside the 64 bits raises [OverflowError], which
    [except sqlite3.Error] does not catch. *)
Definition insert_listing_raises (title link : string) (price : option Z)
  : option string :=
  if Text.truthy title && Text.truthy link && negb (price_fits price)
  then Some "OverflowError"
  else None.

(** [insert_listing] with that exception: a call that raises leaves the
    store as it was, every other call does what [insert_listing] says. *)
Definition insert_listing_checked (self : DatabaseManager)
    (title link : string) (price : option Z)
  : outcome (DatabaseManager * list log_record) :=
  match insert_listing_raises title link price with
  | Some e => Raised e
  | None => Returned (insert_listing self title link price)
  end.

(** Calls of [insert_listing] one after the other, up to the first that
    raises. *)
Fixpoint insert_all_checked (self : DatabaseManager)
    (calls : list (string * string * option Z)) : outcome DatabaseManager :=
  match calls with
  | [] => Returned self
  | (t, l, p) :: rest =>
      match insert_listing_checked self t l p with
      | Returned (db, _) => insert_all_checked db rest
      | Raised e => Raised e
      end
  end.

(* ===================================================================== *)
(** ** The callback with its exceptions, the scheduler with its filter    *)
(* ===================================================================== *)

(** The calls of the spider that can raise, and the fingerprint by which
    the scheduler recognises a request it has seen. Each [_raises] gives the
    exception, if the call raises one; where it gives none, the value of the
    call is the one of [Selector], [Response] and [World]. *)
Class Faults : Type := {
  (** [response.css(query)]: the response is not a text, or the query is
      no selector *)
  css_raises : Response -> string -> option string;
  (** [node.css(query)]: the query is no selector *)
  node_css_raises : Selector -> string -> option string;
  (** [urljoin(base, url)]: [ValueError] on a host with ill-formed
      brackets *)
  urljoin_raises : string -> option string -> option string;
  (** [scrapy.Request(url=url, callback=...)]: [ValueError] on a URL
      without a scheme *)
  Request_raises : string -> option string;
  (** the fingerprint of the request for a URL, which the duplicates
      filter of the scheduler compares *)
  request_fingerprint : string -> string
}.

(** The exception that leaves the body of the loop of [parse] on a node,
    with the records logged by the body before it: raised by one of the
    two queries, or, for a node whose price lies in the band, by the query
    for the link, by [urljoin], or by [insert_listing]. *)
Definition listing_raises `{Settings} `{World} `{Faults}
    (response_url : string) (url_selectors : selector_set) (node : Selector)
  : option (string * list log_record) :=
  match node_css_raises node (title_selector url_selectors) with
  | Some e => Some (e, [])
  | None =>
  match node_css_raises node (price_selector url_selectors) with
  | Some e => Some (e, [])
  | None =>
      let title := element_text (css_get node (title_selector url_selectors))
                                "No title found" in
      let price_str := element_text (css_get node (price_selector url_selectors))
                                    "No price found" in
      let '(price, log_price) := parse_price price_str in
      let log := ([FoundTitlePrice title price_str] ++ log_price)%list in
      match price with
      | Some p =>
          if ((min_price <=? p) && (p <=? max_price))%Z then
            match node_css_raises node "a::attr(href)" with
            | Some e => Some (e, log)
            | None =>
            match urljoin_raises response_url (css_get node "a::attr(href)") with
            | Some e => Some (e, log)
            | None =>
                let link := urljoin response_url (css_get node "a::attr(href)") in
                match insert_listing_raises title link (Some p) with
                | Some e => Some (e, log)
                | None => None
                end
            end
            end
          else None
      | None => None
      end
  end
  end.

(** The loop of [parse] over the nodes, up to the first node on which the
    body raises: the store, the counter and the log at that point, and the
    exception if there is one. *)
Fixpoint parse_nodes `{Settings} `{World} `{Faults}
    (response_url : string) (url_selectors : selector_set)
    (nodes : list Selector) (acc : DatabaseManager * nat * list log_record)
  : DatabaseManager * nat * list log_record * option string :=
  match nodes with
  | [] => (acc, None)
  | node :: rest =>
      match listing_raises response_url url_selectors node with
      | Some (e, log_node) =>
          let '(db, listings_found, log) := acc in
          (db, listings_found, (log ++ log_node)%list, Some e)
      | None =>
          parse_nodes response_url url_selectors rest
                      (parse_listing response_url url_selectors acc node)
      end
  end.

(** The first exception of the loop over the nodes. *)
Fixpoint first_raise `{Settings} `{World} `{Faults}
    (response_url : string) (url_selectors : selector_set)
    (nodes : list Selector) : option string :=
  match nodes with
  | [] => None
  | node :: rest =>
      match listing_raises response_url url_selectors node with
      | Some (e, _) => Some e
      | None => first_raise response_url url_selectors rest
      end
  end.

(** The exception that leaves [parse] before the cursor is moved, on a
    spider with the dictionary [selectors]: it depends on the page only. *)
Definition page_raises `{Settings} `{World} `{Faults}
    (selectors : gmap string selector_set) (response : Response)
  : option string :=
  match selectors !! url response with
  | Some url_selectors =>
      match css_raises response (listing_item url_selectors) with
      | Some e => Some e
      | None => first_raise (url response) url_selectors
                            (css response (listing_item url_selectors))
      end
  | None => None
  end.

(** The exception of [make_request]: the one of [scrapy.Request] on the
    URL under the cursor. *)
Definition make_request_raises `{Faults} (self : Pavouk) : option string :=
  match fst (make_request self) with
  | Some request => Request_raises (request_url request)
  | None => None
  end.

(** How a run of [parse] ends: it is exhausted after yielding its
    requests, or an exception leaves it; in both cases the spider and the
    log are the ones at that point. *)
Inductive parse_end : Type :=
  | Parsed (self' : Pavouk) (requests : list Request) (log : list log_record)
  | ParseRaised (e : string) (self' : Pavouk) (log : list log_record).

(** [parse(self, response)] with its exceptions. One raised in the loop
    leaves the store with the inserts made so far and the cursor where it
    was; one raised by [make_request] leaves the cursor moved; neither
    yields a request. Without an exception the run is the one of
    [parse]. *)
Definition parse_checked `{Settings} `{World} `{Faults}
    (self : Pavouk) (response : Response) : parse_end :=
  let log0 := [ParsingResponse (url response) (status response)] in
  let raised_in_loop :=
    match selectors self !! url response with
    | Some url_selectors =>
        match css_raises response (listing_item url_selectors) with
        | Some e => Some (e, db_manager self, log0)
        | None =>
            let nodes := css response (listing_item url_selectors) in
            match parse_nodes (url response) url_selectors nodes
                              (db_manager self, 0%nat,
                               [NumberOfListingsFound (length nodes)]) with
            | (db, _, log, Some e) => Some (e, db, (log0 ++ log)%list)
            | (_, None) => None
            end
        end
    | None => None
    end in
  match raised_in_loop with
  | Some (e, db, log) =>
      ParseRaised e {| urls := urls self; db_manager := db;
                       selectors := selectors self;
                       current_url_index := current_url_index self |} log
  | None =>
      let '(self', requests, log) := parse self response in
      match make_request_raises self' with
      | Some e => ParseRaised e self' log
      | None => Parsed self' requests log
      end
  end.

(** The engine with the scheduler's set of fingerprints. *)
Record Run : Type := {
  crawl_state : Crawl;
  seen : gset string
}.

(** [scheduler.enqueue_request] on the requests a callback yields, with
    the duplicates filter Scrapy installs by default: the requests are
    built without [dont_filter], so one whose fingerprint has been seen is
    dropped. *)
Fixpoint enqueue `{Faults} (requests : list Request) (seen : gset string)
  : list Request * gset string :=
  match requests with
  | [] => ([], seen)
  | request :: rest =>
      let fp := request_fingerprint (request_url request) in
      if decide (fp ∈ seen) then enqueue rest seen
      else
        let '(accepted, seen') := enqueue rest ({[fp]} ∪ seen) in
        (request :: accepted, seen')
  end.

(** The engine opens the spider: the requests of [start_requests] go
    through the scheduler; an exception of [make_request] leaves none. *)
Definition run_start `{Faults} (self : Pavouk) : Run :=
  let '(requests, log) := start_requests self in
  match make_request_raises self with
  | Some _ =>
      {| crawl_state := {| spider := self; pending := [];
                           requested := []; crawl_log := log |};
         seen := ∅ |}
  | None =>
      let '(accepted, seen') := enqueue requests ∅ in
      {| crawl_state := {| spider := self; pending := accepted;
                           requested := []; crawl_log := log |};
         seen := seen' |}
  end.

(** One download and what follows it. An exception of the callback is
    logged by the engine and the run goes on with what is pending. *)
Definition run_step `{Settings} `{World} `{Faults} (r : Run) : option Run :=
  let c := crawl_state r in
  match pending c with
  | [] => None
  | request :: queue =>
      let requested' := (requested c ++ [request_url request])%list in
      match download (request_url request) with
      | Downloaded response =>
          match parse_checked (spider c) response with
          | Parsed self' requests log =>
              let '(accepted, seen') := enqueue requests (seen r) in
              Some {| crawl_state :=
                        {| spider := self'; pending := (queue ++ accepted)%list;
                           requested := requested';
                           crawl_log := (crawl_log c ++ log)%list |};
                      seen := seen' |}
          | ParseRaised _ self' log =>
              Some {| crawl_state :=
                        {| spider := self'; pending := queue;
                           requested := requested';
                           crawl_log := (crawl_log c ++ log)%list |};
                      seen := seen r |}
          end
      | DownloadFailed _ =>
          Some {| crawl_state :=
                    {| spider := spider c; pending := queue;
                       requested := requested'; crawl_log := crawl_log c |};
                  seen := seen r |}
      end
  end.

Fixpoint run_steps `{Settings} `{World} `{Faults} (n : nat) (r : Run) : Run :=
  match n with
  | O => r
  | S n' =>
      match run_step r with
      | Some r' => run_steps n' r'
      | None => r
      end
  end.

(** The run of a spider over its URL list: every step moves the cursor or
    leaves nothing pending, so as many steps as there are URLs end it. *)
Definition run `{Settings} `{World} `{Faults} (self : Pavouk) : Run :=
  run_steps (length (urls self)) (run_start self).

(** The fingerprints of the requests for a list of URLs. *)
Definition fingerprints `{Faults} (l : list string) : gset string :=
  list_to_set (request_fingerprint <$> l).

(** The site is downloaded and [parse] raises nothing on its page. *)
Definition served `{Settings} `{World} `{Faults}
    (selectors : gmap string selector_set) (u : string) : Prop :=
  exists response,
    download u = Downloaded response /\ page_raises selectors response = None.

(** The run is under way at a cursor: the request for the URL under the
    cursor is the one pending, the URLs before it have been requested, and
    the fingerprints seen are those of the requests up to it. *)
Definition under_way `{Faults} (r : Run) : Prop :=
  let self := spider (crawl_state r) in
  exists u,
    urls self !! current_url_index self = Some u
    /\ pending (crawl_state r) = [{| request_url := u |}]
    /\ requested (crawl_state r) = take (current_url_index self) (urls self)
    /\ seen r = fingerprints (take (S (current_url_index self)) (urls self)).

(** The ways a run over the list [urls0] ends, the cursor then being [k]:
    the list is exhausted; or the site under the cursor has been requested
    and its download failed or [parse] raised on its page; or the request
    for the site under the cursor was never scheduled, since
    [scrapy.Request] raised on its URL or the filter dropped it. *)
Definition ended_at `{Settings} `{World} `{Faults}
    (urls0 : list string) (sels : gmap string selector_set)
    (k : nat) (sites : list string) : Prop :=
  (k = length urls0 /\ sites = urls0)
  \/ (exists u, urls0 !! k = Some u
        /\ sites = take (S k) urls0
        /\ ((exists reason, download u = DownloadFailed reason)
            \/ (exists response e, download u = Downloaded response
                  /\ page_raises sels response = Some e)))
  \/ (exists u, urls0 !! k = Some u
        /\ sites = take k urls0
        /\ ((exists e, Request_raises u = Some e)
            \/ request_fingerprint u ∈ fingerprints (take k urls0))).

(** A run that has ended in one of these ways. *)
Definition ended `{Settings} `{World} `{Faults}
    (urls0 : list string) (sels : gmap string selector_set) (r : Run) : Prop :=
  let self := spider (crawl_state r) in
  urls self = urls0 /\ selectors self = sels
  /\ pending (crawl_state r) = []
  /\ (forall j u, (j < current_url_index self)%nat -> urls0 !! j = Some u ->
        served sels u)
  /\ ended_at urls0 sels (current_url_index self) (requested (crawl_state r)).

Module SampleRun.

(** The URL without its fragment: requests for URLs that differ in the
    fragment only have one fingerprint. *)
Fixpoint without_fragment (s : string) : string :=
  match s with
  | EmptyString => EmptyString
  | String c r =>
      if Text.code_is 35 c then EmptyString else String c (without_fragment r)
  end.

(** A reference on which [urljoin] raises: its host opens a bracket it
    does not close. *)
Definition broken_link : string := "http://[x".

(** On the examples no query raises, and [urljoin] raises on
    [broken_link] only. *)
Definition faults : Faults :=
  {| css_raises := fun _ _ => None;
     node_css_raises := fun _ _ => None;
     urljoin_raises := fun _ reference =>
       match reference with
       | Some l => if String.eqb l broken_link then Some "ValueError" else None
       | None => None
       end;
     Request_raises := fun _ => None;
     request_fingerprint := without_fragment |}.

(** A listing node like [Sample.flat] whose link is [broken_link]. *)
Definition broken_flat : Selector :=
  {| css_get := fun query =>
       if String.eqb query "h2" then Some "<h2>Nice Flat</h2>"
       else if String.eqb query "span.price" then Some "<span>$1,200</span>"
       else if String.eqb query "a::attr(href)" then Some broken_link
       else None |}.

(** The page of [Sample.site] with a second node, the broken one. *)
Definition broken_page : Response :=
  {| url := Sample.site; status := 200;
     css := fun query =>
       if String.eqb query "div.listing" then [Sample.flat; broken_flat] else [] |}.

(** A world like [Sample.world] in which [Sample.site] serves
    [broken_page], and [Sample.other_site] is served with any fragment. *)
Definition world : World :=
  {| Price_fromstring := Sample.digits_amount;
     urljoin := Sample.join_root;
     check_bracketed_netloc := fun _ => true;
     requests_get := fun _ => RequestException "ConnectionError";
     smtp_session := fun _ => Delivered;
     download := fun request_url =>
       if String.eqb request_url Sample.site then Downloaded broken_page
       else if String.eqb (without_fragment request_url) Sample.other_site
            then Downloaded Sample.other_page
       else DownloadFailed "DNSLookupError" |}.

End SampleRun.

(* ===================================================================== *)
(** * Properties                                                          *)
(* ===================================================================== *)

(** ** Text *)

Lemma truthy_true (s : string) : Text.truthy s = true <-> s <> EmptyString.
Proof. destruct s; simpl; split; intros; congruence. Qed.

Lemma startswith_app (a s p : string) :
  Text.startswith (a ++ s) (a ++ p) = Text.startswith s p.
Proof.
  induction a as [|c a IH]; simpl; [reflexivity|].
  rewrite Ascii.eqb_refl. exact IH.
Qed.

Example sanitize_link :
  sanitize_input "https://a.example/x" = "httpsaexamplex".
Proof. reflexivity. Qed.

Example sanitize_title : sanitize_input " Nice, Flat! " = "nice flat".
Proof. reflexivity. Qed.

(** ** The store *)

Section Store.

Implicit Types (db : DatabaseManager) (r : listing) (table : list listing).

Lemma conflicts_stored_under r table :
  conflicts r table = false -> stored_under (title r) (link r) table = [].
Proof.
  unfold conflicts, stored_under. induction table as [|x table IH]; simpl.
  - reflexivity.
  - intros Hc. apply orb_false_elim in Hc as [Hx Hrest].
    rewrite Hx. auto.
Qed.

Lemma conflicts_after_insert r table : conflicts r (table ++ [r])%list = true.
Proof.
  unfold conflicts. rewrite existsb_app. simpl.
  rewrite !String.eqb_refl. simpl. apply orb_true_r.
Qed.

Lemma stored_under_app t l table table' :
  stored_under t l (table ++ table')%list
  = (stored_under t l table ++ stored_under t l table')%list.
Proof. unfold stored_under. apply List.filter_app. Qed.

(** A call that passes the guard on a key that is not stored. *)
Lemma insert_listing_new db t l p :
  t <> EmptyString -> l <> EmptyString ->
  conflicts (Listing (sanitize_input t) (sanitize_input l) p) (rows db) = false ->
  insert_listing db t l (Some p)
  = ({| rows := (rows db ++ [Listing (sanitize_input t) (sanitize_input l) p])%list;
        new_listings :=
          (new_listings db ++ [Listing (sanitize_input t) (sanitize_input l) p])%list |},
     [NewListingAdded (sanitize_input t) p (sanitize_input l)]).
Proof.
  intros Ht Hl Hc. unfold insert_listing, insert_or_ignore.
  apply truthy_true in Ht, Hl. rewrite Ht, Hl, Hc. reflexivity.
Qed.

(** A call that passes the guard on a key that is stored. *)
Lemma insert_listing_known db t l p :
  t <> EmptyString -> l <> EmptyString ->
  conflicts (Listing (sanitize_input t) (sanitize_input l) p) (rows db) = true ->
  insert_listing db t l (Some p) = (db, []).
Proof.
  intros Ht Hl Hc. unfold insert_listing, insert_or_ignore.
  apply truthy_true in Ht, Hl. rewrite Ht, Hl, Hc. simpl.
  destruct db; reflexivity.
Qed.

End Store.

Lemma stored_under_conflicts (r : listing) (table : list listing) :
  stored_under (title r) (link r) table = [] -> conflicts r table = false.
Proof.
  unfold conflicts, stored_under. induction table as [|x table IH]; simpl.
  - reflexivity.
  - destruct (String.eqb (title x) (title r) && String.eqb (link x) (link r)).
    + discriminate.
    + exact IH.
Qed.

(** Two inserts under one sanitized key, on the calls that return. *)
Lemma insert_listing_twice
    (db : DatabaseManager) (t1 l1 t2 l2 : string) (p : Z) :
  t1 <> EmptyString -> l1 <> EmptyString ->
  t2 <> EmptyString -> l2 <> EmptyString ->
  sanitize_input t2 = sanitize_input t1 ->
  sanitize_input l2 = sanitize_input l1 ->
  stored_under (sanitize_input t1) (sanitize_input l1) (rows db) = [] ->
  let r := Listing (sanitize_input t1) (sanitize_input l1) p in
  let first := insert_listing db t1 l1 (Some p) in
  let second := insert_listing (fst first) t2 l2 (Some p) in
  fetch_all_listings (fst second) = (fetch_all_listings db ++ [r])%list
  /\ stored_under (title r) (link r) (fetch_all_listings (fst second)) = [r]
  /\ get_new_listings (fst first) = (get_new_listings db ++ [r])%list
  /\ get_new_listings (fst second) = get_new_listings (fst first)
  /\ snd second = [].
Proof.
  intros Ht1 Hl1 Ht2 Hl2 Et El Hfree r first second.
  assert (Hc : conflicts r (rows db) = false)
    by (apply stored_under_conflicts; exact Hfree).
  assert (H1 : first = ({| rows := (rows db ++ [r])%list;
                           new_listings := (new_listings db ++ [r])%list |},
                         [NewListingAdded (title r) p (link r)]))
    by (apply insert_listing_new; assumption).
  assert (H2 : second = (fst first, [])).
  { subst second. apply insert_listing_known; try assumption.
    rewrite Et, El, H1. simpl. apply conflicts_after_insert. }
  rewrite H2, H1. unfold fetch_all_listings, get_new_listings. simpl.
  repeat split.
  rewrite stored_under_app, Hfree. unfold stored_under. simpl.
  rewrite !String.eqb_refl. reflexivity.
Qed.

(** A call with a price of 64 bits returns. *)
Lemma insert_listing_checked_fits
    (db : DatabaseManager) (t l : string) (price : option Z) :
  price_fits price = true ->
  insert_listing_checked db t l price = Returned (insert_listing db t l price).
Proof.
  intros Hfits. unfold insert_listing_checked, insert_listing_raises.
  rewrite Hfits, andb_false_r. reflexivity.
Qed.

(** C2, as amended: for every non-empty title and link and every price
    that fits the 64 bits of SQLite's integers, on a store that holds no
    record under the sanitized key, inserting the listing twice (the second
    time possibly with a title and link that differ but sanitize to the
    same key) raises nothing and leaves exactly one record under that key,
    appended to the table; the first call reports it as new and the second
    call reports nothing and logs nothing. *)
Theorem C2_idempotent_insert
    (db : DatabaseManager) (t1 l1 t2 l2 : string) (p : Z) :
  t1 <> EmptyString -> l1 <> EmptyString ->
  t2 <> EmptyString -> l2 <> EmptyString ->
  fits_int64 p = true ->
  sanitize_input t2 = sanitize_input t1 ->
  sanitize_input l2 = sanitize_input l1 ->
  stored_under (sanitize_input t1) (sanitize_input l1) (rows db) = [] ->
  let r := Listing (sanitize_input t1) (sanitize_input l1) p in
  exists first second,
    insert_listing_checked db t1 l1 (Some p) = Returned first
    /\ insert_listing_checked (fst first) t2 l2 (Some p) = Returned second
    /\ fetch_all_listings (fst second) = (fetch_all_listings db ++ [r])%list
    /\ stored_under (title r) (link r) (fetch_all_listings (fst second)) = [r]
    /\ get_new_listings (fst first) = (get_new_listings db ++ [r])%list
    /\ get_new_listings (fst second) = get_new_listings (fst first)
    /\ snd second = [].
Proof.
  intros Ht1 Hl1 Ht2 Hl2 Hfits Et El Hfree r.
  exists (insert_listing db t1 l1 (Some p)).
  exists (insert_listing (fst (insert_listing db t1 l1 (Some p))) t2 l2 (Some p)).
  split; [apply insert_listing_checked_fits; exact Hfits|].
  split; [apply insert_listing_checked_fits; exact Hfits|].
  apply insert_listing_twice; assumption.
Qed.

Lemma C2_idempotent_insert_witness :
  let r := Listing "nice flat" "httpsaexamplex" 1200 in
  exists first second,
    insert_listing_checked (DatabaseManager_init [])
      "Nice Flat" "https://a.example/x" (Some 1200%Z) = Returned first
    /\ insert_listing_checked (fst first)
         "NICE, flat!" "HTTPS://A.example/x" (Some 1200%Z) = Returned second
    /\ fetch_all_listings (fst second) = [r]
    /\ stored_under (title r) (link r) (fetch_all_listings (fst second)) = [r]
    /\ get_new_listings (fst first) = [r]
    /\ get_new_listings (fst second) = get_new_listings (fst first)
    /\ snd second = [].
Proof.
  apply (C2_idempotent_insert (DatabaseManager_init [])
           "Nice Flat" "https://a.example/x" "NICE, flat!" "HTTPS://A.example/x"
           1200%Z); try discriminate; reflexivity.
Defined.

(** C2, as stated, fails on an empty title: the guard of [insert_listing]
    skips the insert, so after two calls no record is stored, where the
    claim has exactly one, and the first call reports nothing as new. *)
Lemma C2_empty_title_counterexample :
  let first := insert_listing (DatabaseManager_init [])
                 "" "https://a.example/x" (Some 1200%Z) in
  let second := insert_listing (fst first) "" "https://a.example/x" (Some 1200%Z) in
  length (fetch_all_listings (fst second)) <> 1%nat
  /\ get_new_listings (fst first) = [].
Proof. split; [discriminate | reflexivity]. Qed.



(** ** The notifier *)

Lemma Qltb_lt (a b : Q) : Qltb a b = true <-> (a < b)%Q.
Proof.
  unfold Qltb. rewrite negb_true_iff, <- not_true_iff_false, Qle_bool_iff.
  split; [apply Qnot_le_lt | apply Qlt_not_le].
Qed.

Lemma Qltb_ge (a b : Q) : Qltb a b = false <-> (b <= a)%Q.
Proof.
  unfold Qltb. rewrite negb_false_iff. apply Qle_bool_iff.
Qed.

Section Notifier.

Context {settings : Settings} {world : World}.

(** Within the window nothing happens but the warning. *)
Lemma send_notification_throttled (now now' last : Q) (ls : list listing) :
  (now - last < throttle_window)%Q ->
  send_notification now now' ls last
  = {| last_notification_time := last; logged := [NotificationThrottled];
       dispatched := []; result := Returned tt |}.
Proof.
  intros Hlt. unfold send_notification.
  apply Qltb_lt in Hlt. rewrite Hlt. reflexivity.
Qed.

(** Past the window the time is stored before anything else is looked at. *)
Lemma send_notification_stamps (now now' last : Q) (ls : list listing) :
  (throttle_window <= now - last)%Q ->
  last_notification_time (send_notification now now' ls last) = now'.
Proof.
  intros Hge. unfold send_notification.
  apply Qltb_ge in Hge. rewrite Hge.
  destruct ls; [reflexivity|].
  destruct (smtp_session _); reflexivity.
Qed.

(** Past the window a non-empty list opens one SMTP session. *)
Lemma send_notification_dispatches (now now' last : Q) (ls : list listing) :
  ls <> [] ->
  (throttle_window <= now - last)%Q ->
  dispatched (send_notification now now' ls last) = [notification_email ls].
Proof.
  intros Hne Hge. unfold send_notification.
  apply Qltb_ge in Hge. rewrite Hge.
  destruct ls; [congruence|].
  destruct (smtp_session _); reflexivity.
Qed.

(** C3, as amended: a call with an empty list never dispatches a message
    and returns normally; it leaves the throttle time unchanged when it
    comes within the window of the last one, and otherwise sets it to the
    current time. *)
Theorem C3_empty_input (now now' last : Q) :
  let n := send_notification now now' [] last in
  dispatched n = []
  /\ result n = Returned tt
  /\ ((now - last < throttle_window)%Q -> last_notification_time n = last)
  /\ ((throttle_window <= now - last)%Q -> last_notification_time n = now').
Proof.
  cbv zeta. unfold send_notification.
  destruct (Qltb (now - last) throttle_window) eqn:E; simpl.
  - repeat split; intros Hw. apply Qltb_lt in E. lra.
  - repeat split; intros Hw. apply Qltb_ge in E. lra.
Qed.

(** C4, as amended: when a dispatch is attempted (non-empty listings,
    window elapsed) and the SMTP session fails with an SMTP error, the
    failure is logged and the call returns normally; the throttle time has
    been set to the time of the attempt, so a later call within the window
    of that attempt is throttled and sends nothing. *)
Theorem C4_smtp_failure
    (now now' last : Q) (ls : list listing) (e : string) :
  ls <> [] ->
  (throttle_window <= now - last)%Q ->
  smtp_session (notification_email ls) = SMTPException e ->
  let n := send_notification now now' ls last in
  logged n = [FailedToSendNotification e]
  /\ result n = Returned tt
  /\ dispatched n = [notification_email ls]
  /\ last_notification_time n = now'
  /\ forall (t t' : Q) (ls' : list listing),
       (t - now' < throttle_window)%Q ->
       let retry := send_notification t t' ls' (last_notification_time n) in
       dispatched retry = [] /\ logged retry = [NotificationThrottled].
Proof.
  intros Hne Hge Hsmtp n.
  assert (Hstamp : last_notification_time n = now')
    by (apply send_notification_stamps; exact Hge).
  repeat split.
  - subst n. unfold send_notification.
    apply Qltb_ge in Hge. rewrite Hge.
    destruct ls; [congruence|]. rewrite Hsmtp. reflexivity.
  - subst n. unfold send_notification.
    apply Qltb_ge in Hge. rewrite Hge.
    destruct ls; [congruence|]. rewrite Hsmtp. reflexivity.
  - apply send_notification_dispatches; assumption.
  - exact Hstamp.
  - rewrite Hstamp, send_notification_throttled by assumption. reflexivity.
  - rewrite Hstamp, send_notification_throttled by assumption. reflexivity.
Qed.

(** C5, as amended: for two calls with non-empty lists of which the
    first comes at least a window after the stored time (so that it is
    not throttled itself), exactly one message is dispatched when the
    second call comes less than a window after the time the first call
    stored, and both are when it comes a window or more after it. *)
Theorem C5_throttling
    (last a a' b b' : Q) (ls1 ls2 : list listing) :
  ls1 <> [] -> ls2 <> [] ->
  (throttle_window <= a - last)%Q ->
  let n1 := send_notification a a' ls1 last in
  let n2 := send_notification b b' ls2 (last_notification_time n1) in
  ((b - a' < throttle_window)%Q ->
     (dispatched n1 ++ dispatched n2)%list = [notification_email ls1])
  /\ ((throttle_window <= b - a')%Q ->
     (dispatched n1 ++ dispatched n2)%list
     = [notification_email ls1; notification_email ls2]).
Proof.
  intros Hne1 Hne2 Hge n1 n2.
  assert (Hstamp : last_notification_time n1 = a')
    by (apply send_notification_stamps; exact Hge).
  assert (Hd1 : dispatched n1 = [notification_email ls1])
    by (apply send_notification_dispatches; assumption).
  subst n2. rewrite Hstamp, Hd1. split; intros Hw.
  - rewrite send_notification_throttled by exact Hw. reflexivity.
  - rewrite send_notification_dispatches by assumption. reflexivity.
Qed.

End Notifier.

Lemma C4_smtp_failure_witness :
  let n := @send_notification Sample.settings
             (Sample.world (SMTPException "SMTPServerDisconnected"))
             4000 4000 [Sample.nice_flat] 0 in
  logged n = [FailedToSendNotification "SMTPServerDisconnected"]
  /\ result n = Returned tt
  /\ dispatched n = [@notification_email Sample.settings [Sample.nice_flat]]
  /\ last_notification_time n = 4000%Q
  /\ forall (t t' : Q) (ls' : list listing),
       (t - 4000 < throttle_window)%Q ->
       let retry := @send_notification Sample.settings
                      (Sample.world (SMTPException "SMTPServerDisconnected"))
                      t t' ls' (last_notification_time n) in
       dispatched retry = [] /\ logged retry = [NotificationThrottled].
Proof.
  apply (@C4_smtp_failure Sample.settings
           (Sample.world (SMTPException "SMTPServerDisconnected"))
           4000 4000 0 [Sample.nice_flat] "SMTPServerDisconnected").
  - discriminate.
  - vm_compute. discriminate.
  - reflexivity.
Defined.

(** C3, as stated, fails once the window has elapsed: a call with an empty
    list at time 3600, the stored time being 0, sets the stored time to
    3600. *)
Lemma C3_stamp_counterexample :
  let n := @send_notification Sample.settings (Sample.world Delivered)
             3600 3600 [] 0 in
  dispatched n = [] /\ ~ (last_notification_time n == 0)%Q.
Proof. split; [reflexivity | vm_compute; discriminate]. Qed.

(** C4, as stated, fails: a dispatch attempted at time 4000 that ends in
    an SMTP error leaves the stored time at 4000, not at its old value 0,
    and the retry one second later is throttled. *)
Lemma C4_stamp_counterexample :
  let n := @send_notification Sample.settings
             (Sample.world (SMTPException "SMTPServerDisconnected"))
             4000 4000 [Sample.nice_flat] 0 in
  let retry := @send_notification Sample.settings (Sample.world Delivered)
                 4001 4001 [Sample.nice_flat] (last_notification_time n) in
  logged n = [FailedToSendNotification "SMTPServerDisconnected"]
  /\ ~ (last_notification_time n == 0)%Q
  /\ dispatched retry = [].
Proof. repeat split. vm_compute; discriminate. Qed.

Lemma C5_throttling_witness :
  let n1 := @send_notification Sample.settings (Sample.world Delivered)
              3600 3601 [Sample.nice_flat] 0 in
  let n2 := @send_notification Sample.settings (Sample.world Delivered)
              7200 7201 [Sample.nice_flat; Sample.nice_flat]
              (last_notification_time n1) in
  ((7200 - 3601 < throttle_window)%Q ->
     (dispatched n1 ++ dispatched n2)%list
     = [@notification_email Sample.settings [Sample.nice_flat]])
  /\ ((throttle_window <= 7200 - 3601)%Q ->
     (dispatched n1 ++ dispatched n2)%list
     = [@notification_email Sample.settings [Sample.nice_flat];
        @notification_email Sample.settings [Sample.nice_flat; Sample.nice_flat]]).
Proof.
  apply (@C5_throttling Sample.settings (Sample.world Delivered)
           0 3600 3601 7200 7201 [Sample.nice_flat]
           [Sample.nice_flat; Sample.nice_flat]).
  - discriminate.
  - discriminate.
  - vm_compute. discriminate.
Defined.

(** C5, as stated, fails when the first call is itself within the window
    of the stored time, which starts at the time the module is loaded (0
    here): calls at 10 and 20 dispatch nothing, where the claim has one
    message, and calls at 10 and 3700 dispatch one, where it has two. *)
Lemma C5_first_window_counterexample :
  let send := @send_notification Sample.settings (Sample.world Delivered) in
  let n1 := send 10%Q 10%Q [Sample.nice_flat] 0%Q in
  let n2 := send 20%Q 20%Q [Sample.nice_flat] (last_notification_time n1) in
  let m2 := send 3700%Q 3700%Q [Sample.nice_flat] (last_notification_time n1) in
  length (dispatched n1 ++ dispatched n2)%list <> 1%nat
  /\ length (dispatched n1 ++ dispatched m2)%list <> 2%nat.
Proof. split; vm_compute; discriminate. Qed.

(** ** The spider and the crawl *)

Section Crawl.

Context {settings : Settings} {world : World}.

Implicit Types (self : Pavouk) (c : Crawl) (response : Response).

(** The request made is the one for the URL under the cursor, if any. *)
Lemma make_request_lookup self :
  fst (make_request self)
  = (fun u => {| request_url := u |}) <$> (urls self !! current_url_index self).
Proof.
  unfold make_request.
  destruct (Nat.ltb_spec (current_url_index self) (length (urls self))) as [Hlt|Hge].
  - destruct (lookup_lt_is_Some_2 _ _ Hlt) as [u ->]. reflexivity.
  - rewrite (lookup_ge_None_2 _ _ Hge). reflexivity.
Qed.

Lemma make_request_at self u :
  urls self !! current_url_index self = Some u ->
  yielded (fst (make_request self)) = [{| request_url := u |}].
Proof. intros Hu. rewrite make_request_lookup, Hu. reflexivity. Qed.

Lemma make_request_end self :
  (length (urls self) <= current_url_index self)%nat ->
  yielded (fst (make_request self)) = [].
Proof.
  intros Hge. rewrite make_request_lookup, (lookup_ge_None_2 _ _ Hge). reflexivity.
Qed.

(** What [parse] does to the spider, whatever the page holds: the cursor
    moves by one and the request yielded is the one under the new cursor. *)
Lemma parse_advances self response :
  let '(self', requests, _) := parse self response in
  urls self' = urls self
  /\ selectors self' = selectors self
  /\ current_url_index self' = S (current_url_index self)
  /\ requests = yielded (fst (make_request self')).
Proof.
  unfold parse.
  destruct (match selectors self !! url response with
            | Some _ => _ | None => _ end) as [db log].
  destruct (make_request _) as [next log_next] eqn:E.
  simpl. rewrite E. auto.
Qed.

Lemma crawl_start_in_sequence urls0 db sels :
  in_sequence (crawl_start (Pavouk_init urls0 db sels)).
Proof.
  unfold in_sequence, crawl_start, start_requests.
  destruct (make_request _) as [request log] eqn:E. simpl.
  rewrite E. auto.
Qed.

Lemma crawl_start_spider self : spider (crawl_start self) = self.
Proof.
  unfold crawl_start, start_requests.
  destruct (make_request self). reflexivity.
Qed.

(** A step on a page that is downloaded. *)
Lemma crawl_step_downloaded c u response :
  in_sequence c ->
  urls (spider c) !! current_url_index (spider c) = Some u ->
  download u = Downloaded response ->
  exists c',
    crawl_step c = Some c'
    /\ in_sequence c'
    /\ urls (spider c') = urls (spider c)
    /\ selectors (spider c') = selectors (spider c)
    /\ current_url_index (spider c') = S (current_url_index (spider c)).
Proof.
  intros [Hpending Hrequested] Hu Hdl.
  unfold crawl_step. rewrite Hpending, (make_request_at _ _ Hu). simpl.
  rewrite Hdl.
  pose proof (parse_advances (spider c) response) as Hp.
  destruct (parse (spider c) response) as [[self' requests] log].
  destruct Hp as (Hurls & Hsels & Hidx & Hreq).
  eexists. split; [reflexivity|].
  unfold in_sequence. simpl.
  repeat split; try assumption.
  rewrite Hidx, Hurls, Hrequested. symmetry. apply take_S_r. exact Hu.
Qed.

(** A step on a page whose download fails: the spider is left as it is
    and nothing is pending any more. *)
Lemma crawl_step_failed c u reason :
  in_sequence c ->
  urls (spider c) !! current_url_index (spider c) = Some u ->
  download u = DownloadFailed reason ->
  crawl_step c
  = Some {| spider := spider c; pending := [];
            requested := take (S (current_url_index (spider c))) (urls (spider c));
            crawl_log := crawl_log c |}.
Proof.
  intros [Hpending Hrequested] Hu Hdl.
  unfold crawl_step. rewrite Hpending, (make_request_at _ _ Hu). simpl.
  rewrite Hdl, Hrequested, (take_S_r _ _ _ Hu). reflexivity.
Qed.

(** Past the last URL nothing is pending. *)
Lemma crawl_step_end c :
  in_sequence c ->
  (length (urls (spider c)) <= current_url_index (spider c))%nat ->
  crawl_step c = None.
Proof.
  intros [Hpending _] Hge. unfold crawl_step.
  rewrite Hpending, (make_request_end _ Hge). reflexivity.
Qed.

Lemma crawl_steps_stopped n c : crawl_step c = None -> crawl_steps n c = c.
Proof. intros Hstop. destruct n; simpl; [|rewrite Hstop]; reflexivity. Qed.

End Crawl.

Section EndToEnd.

Context {settings : Settings} {world : World}.

(** A node whose price is read and lies in the band is offered to the
    store under its title text and its resolved link. *)
Lemma parse_listing_offers
    (response_url : string) (sel : selector_set) (db : DatabaseManager)
    (n : nat) (log : list log_record) (node : Selector)
    (t s l : string) (a : Q) :
  element_text (css_get node (title_selector sel)) "No title found" = t ->
  element_text (css_get node (price_selector sel)) "No price found" = s ->
  Price_fromstring s = Some a ->
  (min_price <= int_of_amount a <= max_price)%Z ->
  urljoin response_url (css_get node "a::attr(href)") = l ->
  exists log',
    parse_listing response_url sel (db, n, log) node
    = (fst (insert_listing db t l (Some (int_of_amount a))), S n, log').
Proof.
  intros Ht Hs Ha [Hlo Hhi] Hl.
  unfold parse_listing, parse_price. rewrite Ht, Hs, Ha, Hl.
  apply Z.leb_le in Hlo, Hhi. rewrite Hlo, Hhi.
  destruct (insert_listing db t l (Some (int_of_amount a))) as [db' log_insert].
  eexists. reflexivity.
Qed.

(** The crawl of one site whose page holds one such node leaves the store
    as one call of [insert_listing] does. *)
Lemma crawl_single_listing
    (base : string) (db : DatabaseManager) (sels : gmap string selector_set)
    (sel : selector_set) (response : Response) (node : Selector)
    (t s l : string) (a : Q) :
  sels !! base = Some sel ->
  download base = Downloaded response ->
  url response = base ->
  css response (listing_item sel) = [node] ->
  element_text (css_get node (title_selector sel)) "No title found" = t ->
  element_text (css_get node (price_selector sel)) "No price found" = s ->
  Price_fromstring s = Some a ->
  (min_price <= int_of_amount a <= max_price)%Z ->
  urljoin base (css_get node "a::attr(href)") = l ->
  db_manager (spider (crawl (Pavouk_init [base] db sels)))
  = fst (insert_listing db t l (Some (int_of_amount a))).
Proof.
  intros Hsel Hdl Hurl Hcss Ht Hs Ha Hband Hl.
  change (crawl (Pavouk_init [base] db sels))
    with (crawl_steps 1
            {| spider := Pavouk_init [base] db sels;
               pending := [{| request_url := base |}];
               requested := []; crawl_log := [StartingRequest base] |}).
  cbn [crawl_steps]. unfold crawl_step.
  cbn [pending request_url spider]. rewrite Hdl.
  unfold parse. rewrite Hurl.
  cbn [selectors Pavouk_init db_manager]. rewrite Hsel, Hcss.
  cbn [fold_left].
  destruct (parse_listing_offers base sel db 0 [NumberOfListingsFound (length [node])]
              node t s l a) as [log' ->]; try assumption.
  destruct (make_request _) as [next log_next]. reflexivity.
Qed.

(** C1, as amended: with the price band [1000, 2000], the crawl of the
    site [https://a.example/list], whose page yields one item with the title
    text [Nice Flat], the price text [$1,200] (which the price library reads
    as 1200) and the link [/x] (which [urljoin] resolves to
    [https://a.example/x]), stores in an empty database the one record with
    title [nice flat], link [httpsaexamplex] (the link is sanitized like the
    title) and price 1200, and reports it as new; the same crawl run again
    on the database so filled reports no new record and stores nothing
    more. *)
Theorem C1_end_to_end
    (sels : gmap string selector_set) (sel : selector_set)
    (response : Response) (node : Selector) :
  min_price = 1000%Z -> max_price = 2000%Z ->
  sels !! "https://a.example/list" = Some sel ->
  download "https://a.example/list" = Downloaded response ->
  url response = "https://a.example/list" ->
  css response (listing_item sel) = [node] ->
  element_text (css_get node (title_selector sel)) "No title found" = "Nice Flat" ->
  element_text (css_get node (price_selector sel)) "No price found" = "$1,200" ->
  css_get node "a::attr(href)" = Some "/x" ->
  Price_fromstring "$1,200" = Some 1200%Q ->
  urljoin "https://a.example/list" (Some "/x") = "https://a.example/x" ->
  let record := Listing "nice flat" "httpsaexamplex" 1200 in
  let first :=
    db_manager (spider (crawl (Pavouk_init ["https://a.example/list"]
                                           (DatabaseManager_init []) sels))) in
  let second :=
    db_manager (spider (crawl (Pavouk_init ["https://a.example/list"]
                                 (DatabaseManager_init (fetch_all_listings first))
                                 sels))) in
  fetch_all_listings first = [record]
  /\ get_new_listings first = [record]
  /\ fetch_all_listings second = [record]
  /\ get_new_listings second = [].
Proof.
  intros Hmin Hmax Hsel Hdl Hurl Hcss Ht Hs Hhref Hprice Hjoin record first second.
  assert (Hrun : forall db,
            db_manager (spider (crawl (Pavouk_init ["https://a.example/list"] db sels)))
            = fst (insert_listing db "Nice Flat" "https://a.example/x" (Some 1200%Z))).
  { intros db.
    apply (crawl_single_listing _ db sels sel response node
             "Nice Flat" "$1,200" "https://a.example/x" 1200%Q);
      try assumption.
    - rewrite Hmin, Hmax. vm_compute. split; discriminate.
    - rewrite Hhref. exact Hjoin. }
  assert (Hfirst : first = {| rows := [record]; new_listings := [record] |}).
  { subst first. rewrite Hrun. reflexivity. }
  assert (Hsecond : second = {| rows := [record]; new_listings := [] |}).
  { subst second. rewrite Hrun, Hfirst. reflexivity. }
  rewrite Hfirst, Hsecond. repeat split.
Qed.

End EndToEnd.

Lemma C1_end_to_end_witness :
  let crawl_of db :=
    db_manager (spider (@crawl Sample.settings (Sample.world Delivered)
                          (Pavouk_init ["https://a.example/list"] db
                                       Sample.selectors))) in
  let first := crawl_of (DatabaseManager_init []) in
  let second := crawl_of (DatabaseManager_init (fetch_all_listings first)) in
  fetch_all_listings first = [Sample.nice_flat]
  /\ get_new_listings first = [Sample.nice_flat]
  /\ fetch_all_listings second = [Sample.nice_flat]
  /\ get_new_listings second = [].
Proof.
  apply (@C1_end_to_end Sample.settings (Sample.world Delivered)
           Sample.selectors Sample.site_selectors Sample.page Sample.flat);
    reflexivity.
Defined.

(** C1, as stated, fails on the link: the record stored for the example
    has the link [httpsaexamplex], since [insert_listing] sanitizes the link
    as it does the title; it is not the record with the link
    [https://a.example/x]. *)
Lemma C1_stored_link_counterexample :
  let first :=
    db_manager (spider (@crawl Sample.settings (Sample.world Delivered)
                          (Pavouk_init ["https://a.example/list"]
                                       (DatabaseManager_init [])
                                       Sample.selectors))) in
  fetch_all_listings first = [Listing "nice flat" "httpsaexamplex" 1200]
  /\ fetch_all_listings first <> [Listing "nice flat" "https://a.example/x" 1200].
Proof. vm_compute. split; [reflexivity | discriminate]. Qed.

(** ** URL validation *)

(** A URL whose scheme is http, in any case, starts with no text that
    starts with [https://]: its fifth character is the colon. *)
Lemma http_scheme_not_https (url rest tail : string) :
  match_literal "http://" url = Some rest ->
  Text.startswith url ("https://" ++ tail) = false.
Proof.
  destruct url as [|a1 [|a2 [|a3 [|a4 [|a5 r]]]]]; simpl;
    repeat match goal with
      | |- context [if Ascii.eqb (Text.lower_char ?a) ?b then _ else None] =>
          let E := fresh "E" in
          destruct (Ascii.eqb (Text.lower_char a) b) eqn:E
      end; try discriminate.
  intros _.
  destruct (Ascii.eqb_spec a5 "s") as [-> | Hne].
  - vm_compute in E3. discriminate.
  - rewrite !andb_false_r. reflexivity.
Qed.

Lemma disallowed_http (url rest domain : string) (paths : list string) :
  match_literal "http://" url = Some rest ->
  disallowed url domain paths = false.
Proof.
  intros Hhttp. unfold disallowed.
  induction paths as [|path paths IH]; simpl; [reflexivity|].
  rewrite (http_scheme_not_https url rest _ Hhttp). exact IH.
Qed.

Lemma disallowed_behind_host (host path : string) (paths : list string) :
  disallowed ("https://" ++ host ++ path) host paths
  = existsb (fun prefix => Text.startswith path prefix) paths.
Proof.
  unfold disallowed.
  induction paths as [|prefix paths IH]; cbn [existsb]; [reflexivity|].
  rewrite IH. f_equal.
  rewrite (startswith_app "https://" (host ++ path) (host ++ prefix)).
  apply startswith_app.
Qed.

(** On an https URL the test of the code is the rule of the design. *)
Lemma disallowed_https `{Settings} (host path text : string) :
  disallowed ("https://" ++ host ++ path) host (disallowed_paths text)
  = path_disallowed text path.
Proof. apply disallowed_behind_host. Qed.

Section Gate.

Context {settings : Settings} {world : World}.

Implicit Types (valid_urls : gset string) (log : list log_record).

(** A URL that passes every test of the loop joins the set. *)
Lemma validate_url_admits url domain text valid_urls log :
  url_pattern_match url = true ->
  urlparse_netloc url = Some domain ->
  requests_get ("https://" ++ domain ++ "/robots.txt") = HttpResponse 200 text ->
  disallowed url domain (disallowed_paths text) = false ->
  validate_url url (valid_urls, log)
  = Returned (valid_urls ∪ {[url]}, (log ++ [ValidUrlAdded url])%list).
Proof.
  intros Hmatch Hnetloc Hget Hallowed. unfold validate_url.
  rewrite Hmatch, Hnetloc, Hget, Hallowed. reflexivity.
Qed.

(** A URL that the robots test excludes leaves the set as it is. *)
Lemma validate_url_excludes url domain text valid_urls log :
  url_pattern_match url = true ->
  urlparse_netloc url = Some domain ->
  requests_get ("https://" ++ domain ++ "/robots.txt") = HttpResponse 200 text ->
  disallowed url domain (disallowed_paths text) = true ->
  validate_url url (valid_urls, log)
  = Returned (valid_urls, (log ++ [UrlDisallowedByRobots url])%list).
Proof.
  intros Hmatch Hnetloc Hget Hdis. unfold validate_url.
  rewrite Hmatch, Hnetloc, Hget, Hdis. reflexivity.
Qed.

(** The set only grows in a round, and in the rounds that follow. *)
Lemma validate_url_grows url valid_urls log valid_urls' log' :
  validate_url url (valid_urls, log) = Returned (valid_urls', log') ->
  valid_urls ⊆ valid_urls'.
Proof.
  unfold validate_url.
  destruct (url_pattern_match url); [|intros [= <- _]; set_solver].
  destruct (urlparse_netloc url) as [domain|]; [|discriminate].
  destruct (requests_get _) as [status_code text | e];
    [|intros [= <- _]; set_solver].
  destruct (status_code =? 200)%Z; [|intros [= <- _]; set_solver].
  destruct (negb _); intros [= <- _]; set_solver.
Qed.

Lemma validate_loop_grows urls0 : forall valid_urls log valid_urls' log',
  validate_loop urls0 (valid_urls, log) = Returned (valid_urls', log') ->
  valid_urls ⊆ valid_urls'.
Proof.
  induction urls0 as [|url rest IH]; intros valid_urls log valid_urls' log';
    cbn [validate_loop].
  - intros [= <- _]. set_solver.
  - destruct (validate_url url (valid_urls, log)) as [[valid1 log1]|e] eqn:E;
      [|discriminate].
    intros Hloop. apply validate_url_grows in E. apply IH in Hloop. set_solver.
Qed.

(** Robots exclusion on https URLs: of two URLs that pass the pattern, on
    one host with lower-case scheme https, whose robots file is served and
    disallows, by the line matching of the code, the path of the first and
    not the path of the second, only the second is admitted, in whichever
    order they come. *)
Lemma robots_exclusion_https (host path1 path2 text : string) :
  let url1 := "https://" ++ host ++ path1 in
  let url2 := "https://" ++ host ++ path2 in
  url_pattern_match url1 = true -> url_pattern_match url2 = true ->
  urlparse_netloc url1 = Some host -> urlparse_netloc url2 = Some host ->
  requests_get ("https://" ++ host ++ "/robots.txt") = HttpResponse 200 text ->
  path_disallowed text path1 = true ->
  path_disallowed text path2 = false ->
  admitted [url1; url2] = Some {[url2]} /\ admitted [url2; url1] = Some {[url2]}.
Proof.
  intros url1 url2 Hm1 Hm2 Hn1 Hn2 Hget Hd1 Hd2.
  assert (Hdis1 : disallowed url1 host (disallowed_paths text) = true)
    by (unfold url1; rewrite disallowed_https; exact Hd1).
  assert (Hdis2 : disallowed url2 host (disallowed_paths text) = false)
    by (unfold url2; rewrite disallowed_https; exact Hd2).
  unfold admitted, validate_urls. split; cbn [validate_loop].
  - rewrite (validate_url_excludes url1 host text) by assumption.
    rewrite (validate_url_admits url2 host text) by assumption.
    f_equal. apply (left_id_L ∅ (∪)).
  - rewrite (validate_url_admits url2 host text) by assumption.
    rewrite (validate_url_excludes url1 host text) by assumption.
    f_equal. apply (left_id_L ∅ (∪)).
Qed.

(** C10: for a URL that passes the pattern with the scheme http (in any
    case), on a host whose robots file is served, the test against the
    disallowed paths never succeeds, whatever the robots file holds, since
    every path is compared behind [https://]; the URL joins the admitted
    set, and it is in the result of every call that returns and has it
    among its arguments. *)
Theorem C10_http_urls_bypass_robots
    (url rest domain text : string) :
  match_literal "http://" url = Some rest ->
  url_pattern_match url = true ->
  urlparse_netloc url = Some domain ->
  requests_get ("https://" ++ domain ++ "/robots.txt") = HttpResponse 200 text ->
  (forall paths, disallowed url domain paths = false)
  /\ (forall valid_urls log,
        validate_url url (valid_urls, log)
        = Returned (valid_urls ∪ {[url]}, (log ++ [ValidUrlAdded url])%list))
  /\ admitted [url] = Some {[url]}
  /\ (forall urls0 valid_urls,
        admitted urls0 = Some valid_urls -> url ∈ urls0 -> url ∈ valid_urls).
Proof.
  intros Hhttp Hmatch Hnetloc Hget.
  assert (Hnever : forall paths, disallowed url domain paths = false)
    by (intros paths; apply (disallowed_http url rest); exact Hhttp).
  assert (Hround : forall valid_urls log,
            validate_url url (valid_urls, log)
            = Returned (valid_urls ∪ {[url]}, (log ++ [ValidUrlAdded url])%list))
    by (intros; apply (validate_url_admits url domain text); auto).
  split; [exact Hnever|]. split; [exact Hround|]. split.
  - unfold admitted, validate_urls. cbn [validate_loop]. rewrite Hround.
    f_equal. apply (left_id_L ∅ (∪)).
  - intros urls0 valid_urls. unfold admitted, validate_urls.
    generalize (∅ : gset string) [ValidatingUrls].
    induction urls0 as [|u urls0 IH]; intros acc log Hadm Hin.
    + apply elem_of_nil in Hin. contradiction.
    + cbn [validate_loop] in Hadm.
      destruct (validate_url u (acc, log)) as [[acc1 log1]|e] eqn:E;
        [|discriminate].
      apply elem_of_cons in Hin as [-> | Hin].
      * rewrite Hround in E. injection E as <- <-.
        destruct (validate_loop urls0 _) as [[acc2 log2]|e] eqn:E2;
          [|discriminate].
        injection Hadm as <-. apply validate_loop_grows in E2. set_solver.
      * apply (IH acc1 log1); assumption.
Qed.

End Gate.

Lemma C10_http_urls_bypass_robots_witness :
  let url := "http://a.example/my_scraper/x" in
  let admitted := @admitted Sample.settings (Sample.world Delivered) in
  @path_disallowed Sample.settings Sample.robots_txt "/my_scraper/x" = true
  /\ ((forall paths, disallowed url "a.example" paths = false)
      /\ (forall valid_urls log,
            @validate_url Sample.settings (Sample.world Delivered)
                          url (valid_urls, log)
            = Returned (valid_urls ∪ {[url]}, (log ++ [ValidUrlAdded url])%list))
      /\ admitted [url] = Some {[url]}
      /\ (forall urls0 valid_urls,
            admitted urls0 = Some valid_urls -> url ∈ urls0 -> url ∈ valid_urls)).
Proof.
  split; [reflexivity|].
  apply (@C10_http_urls_bypass_robots Sample.settings (Sample.world Delivered)
           "http://a.example/my_scraper/x" "a.example/my_scraper/x"
           "a.example" Sample.robots_txt); reflexivity.
Defined.

(** The robots rule at work on the https URLs of the sample host. *)
Example robots_exclusion_https_sample :
  @admitted Sample.settings (Sample.world Delivered)
            ["https://a.example/my_scraper/x"; "https://a.example/ok"]
  = Some {["https://a.example/ok"]}.
Proof.
  apply (@robots_exclusion_https Sample.settings (Sample.world Delivered)
           "a.example" "/my_scraper/x" "/ok" Sample.robots_txt); reflexivity.
Qed.

(** C8 at the failing input: the two URLs [http://a.example/my_scraper/x]
    and [http://a.example/ok] pass the pattern and are on the host
    [a.example], whose robots file is served and disallows [/my_scraper/]
    for the agent [my_scraper], so that the path of the first is disallowed
    and the path of the second is not; [validate_urls] admits both, where
    the claim has the second only. *)
Theorem C8_robots_exclusion_http_input :
  let blocked := "http://a.example/my_scraper/x" in
  let allowed := "http://a.example/ok" in
  let world := Sample.world Delivered in
  url_pattern_match blocked = true
  /\ url_pattern_match allowed = true
  /\ @urlparse_netloc world blocked = Some "a.example"
  /\ @urlparse_netloc world allowed = Some "a.example"
  /\ @requests_get world "https://a.example/robots.txt"
     = HttpResponse 200 Sample.robots_txt
  /\ @path_disallowed Sample.settings Sample.robots_txt "/my_scraper/x" = true
  /\ @path_disallowed Sample.settings Sample.robots_txt "/ok" = false
  /\ @admitted Sample.settings world [blocked; allowed]
     = Some ({[blocked]} ∪ {[allowed]})
  /\ @admitted Sample.settings world [blocked; allowed] <> Some {[allowed]}.
Proof.
  intros blocked allowed world.
  assert (Hboth : @admitted Sample.settings world [blocked; allowed]
                  = Some ({[blocked]} ∪ {[allowed]})).
  { unfold admitted, validate_urls. cbn [validate_loop].
    rewrite (@validate_url_admits Sample.settings world blocked "a.example"
               Sample.robots_txt) by reflexivity.
    rewrite (@validate_url_admits Sample.settings world allowed "a.example"
               Sample.robots_txt) by reflexivity.
    reflexivity. }
  repeat split; try reflexivity; try exact Hboth.
  rewrite Hboth. discriminate.
Qed.

(* ===================================================================== *)
(** * Further properties of the code                                      *)
(* ===================================================================== *)

(** ** Sanitizing *)

Lemma all_chars_impl (p q : ascii -> bool) (s : string) :
  (forall c, p c = true -> q c = true) ->
  all_chars p s = true -> all_chars q s = true.
Proof.
  intros Hpq. induction s as [|c s IH]; simpl; [reflexivity|].
  intros [Hc Hs]%andb_true_iff. rewrite (Hpq c Hc), (IH Hs). reflexivity.
Qed.

Lemma all_chars_keep (p : ascii -> bool) (s : string) :
  all_chars p (Text.keep_chars p s) = true.
Proof.
  induction s as [|c s IH]; simpl; [reflexivity|].
  destruct (p c) eqn:E; simpl; [rewrite E|]; exact IH.
Qed.

Lemma keep_chars_all (p : ascii -> bool) (s : string) :
  all_chars p s = true -> Text.keep_chars p s = s.
Proof.
  induction s as [|c s IH]; simpl; [reflexivity|].
  intros [Hc Hs]%andb_true_iff. rewrite Hc, (IH Hs). reflexivity.
Qed.

Lemma all_chars_lstrip (p : ascii -> bool) (s : string) :
  all_chars p s = true -> all_chars p (Text.lstrip s) = true.
Proof.
  induction s as [|c s IH]; simpl; [reflexivity|].
  intros Hs. destruct (Text.isspace c); [|exact Hs].
  apply andb_true_iff in Hs as [_ Hs]. exact (IH Hs).
Qed.

Lemma all_chars_rstrip (p : ascii -> bool) (s : string) :
  all_chars p s = true -> all_chars p (Text.rstrip s) = true.
Proof.
  induction s as [|c s IH]; simpl; [reflexivity|].
  intros [Hc Hs]%andb_true_iff. specialize (IH Hs).
  destruct (Text.rstrip s) as [|d r].
  - destruct (Text.isspace c); simpl; [reflexivity|]. rewrite Hc. reflexivity.
  - simpl in *. rewrite Hc. exact IH.
Qed.

(** Facts on single characters, by inspection of the 256 of them. *)
Lemma lower_char_idem (c : ascii) :
  Text.lower_char (Text.lower_char c) = Text.lower_char c.
Proof. destruct c as [[] [] [] [] [] [] [] []]; reflexivity. Qed.

Lemma lower_char_isspace (c : ascii) :
  Text.isspace (Text.lower_char c) = Text.isspace c.
Proof. destruct c as [[] [] [] [] [] [] [] []]; reflexivity. Qed.

Lemma lower_char_kept (c : ascii) :
  (Text.isword c || Text.isspace c || Text.code_is 45 c) = true ->
  (Text.isword (Text.lower_char c) || Text.isspace (Text.lower_char c)
   || Text.code_is 45 (Text.lower_char c)) = true.
Proof. destruct c as [[] [] [] [] [] [] [] []]; vm_compute; intros E; exact E. Qed.

Lemma lower_char_colon (c : ascii) :
  Text.lower_char c = ":"%char -> c = ":"%char.
Proof.
  destruct c as [[] [] [] [] [] [] [] []]; vm_compute; intros E;
    first [reflexivity | discriminate E].
Qed.

Lemma all_chars_lower (s : string) :
  all_chars (fun c => Text.isword c || Text.isspace c || Text.code_is 45 c) s = true ->
  all_chars sanitized_char (Text.lower s) = true.
Proof.
  induction s as [|c s IH]; simpl; [reflexivity|].
  intros [Hc Hs]%andb_true_iff. rewrite (IH Hs), andb_true_r.
  unfold sanitized_char. rewrite (lower_char_kept c Hc), lower_char_idem.
  apply Ascii.eqb_refl.
Qed.

Lemma lower_fixed (s : string) :
  all_chars sanitized_char s = true -> Text.lower s = s.
Proof.
  induction s as [|c s IH]; simpl; [reflexivity|].
  intros [Hc Hs]%andb_true_iff. rewrite (IH Hs).
  unfold sanitized_char in Hc. apply andb_true_iff in Hc as [_ Hc].
  apply Ascii.eqb_eq in Hc. rewrite Hc. reflexivity.
Qed.

Lemma lstrip_lower (s : string) :
  Text.lstrip (Text.lower s) = Text.lower (Text.lstrip s).
Proof.
  induction s as [|c s IH]; simpl; [reflexivity|].
  rewrite lower_char_isspace. destruct (Text.isspace c); [exact IH | reflexivity].
Qed.

Lemma rstrip_lower (s : string) :
  Text.rstrip (Text.lower s) = Text.lower (Text.rstrip s).
Proof.
  induction s as [|c s IH]; simpl; [reflexivity|].
  rewrite IH, lower_char_isspace.
  destruct (Text.rstrip s); simpl; [destruct (Text.isspace c)|]; reflexivity.
Qed.

Lemma lstrip_starts_clean (s : string) : starts_clean (Text.lstrip s) = true.
Proof.
  induction s as [|c s IH]; simpl; [reflexivity|].
  destruct (Text.isspace c) eqn:E; [exact IH|]. simpl. rewrite E. reflexivity.
Qed.

Lemma lstrip_clean (s : string) : starts_clean s = true -> Text.lstrip s = s.
Proof.
  destruct s as [|c s]; simpl; [reflexivity|].
  intros E%negb_true_iff. rewrite E. reflexivity.
Qed.

Lemma rstrip_starts_clean (s : string) :
  starts_clean s = true -> starts_clean (Text.rstrip s) = true.
Proof.
  destruct s as [|c s]; simpl; [reflexivity|].
  intros E. pose proof E as E'. apply negb_true_iff in E'.
  destruct (Text.rstrip s); [rewrite E'|]; simpl; exact E.
Qed.

Lemma rstrip_idem (s : string) : Text.rstrip (Text.rstrip s) = Text.rstrip s.
Proof.
  induction s as [|c s IH]; simpl; [reflexivity|].
  destruct (Text.rstrip s) as [|d r] eqn:E.
  - destruct (Text.isspace c) eqn:Ec; simpl; [|rewrite Ec]; reflexivity.
  - change (Text.rstrip (String c (String d r)))
      with (match Text.rstrip (String d r) with
            | EmptyString =>
                if Text.isspace c then EmptyString else String c EmptyString
            | r' => String c r'
            end).
    rewrite IH. reflexivity.
Qed.

Lemma strip_idem (s : string) : Text.strip (Text.strip s) = Text.strip s.
Proof.
  unfold Text.strip.
  rewrite (lstrip_clean (Text.rstrip (Text.lstrip s)))
    by (apply rstrip_starts_clean, lstrip_starts_clean).
  apply rstrip_idem.
Qed.

Lemma strip_lower (s : string) :
  Text.strip (Text.lower s) = Text.lower (Text.strip s).
Proof. unfold Text.strip. rewrite lstrip_lower, rstrip_lower. reflexivity. Qed.

Lemma sanitize_input_chars (s : string) :
  all_chars sanitized_char (sanitize_input s) = true.
Proof.
  unfold sanitize_input. apply all_chars_lower.
  apply all_chars_rstrip, all_chars_lstrip, all_chars_keep.
Qed.

Lemma sanitize_input_stripped (s : string) :
  Text.strip (sanitize_input s) = sanitize_input s.
Proof. unfold sanitize_input. rewrite strip_lower, strip_idem. reflexivity. Qed.

Lemma sanitize_input_idem (s : string) :
  sanitize_input (sanitize_input s) = sanitize_input s.
Proof.
  pose proof (sanitize_input_chars s) as Hchars.
  pose proof (sanitize_input_stripped s) as Hstrip.
  unfold sanitize_input at 1.
  rewrite keep_chars_all, Hstrip; [apply lower_fixed; exact Hchars|].
  revert Hchars. apply all_chars_impl.
  unfold sanitized_char. intros c [Hc _]%andb_true_iff. exact Hc.
Qed.

Lemma all_chars_has_char (p : ascii -> bool) (c : ascii) (s : string) :
  p c = false -> all_chars p s = true -> Text.has_char c s = false.
Proof.
  intros Hc. induction s as [|a s IH]; simpl; [reflexivity|].
  intros [Ha Hs]%andb_true_iff. rewrite (IH Hs), orb_false_r.
  destruct (Ascii.eqb_spec a c) as [-> |]; [congruence | reflexivity].
Qed.

Lemma match_literal_has_char (c : ascii) (literal s rest : string) :
  Text.has_char c literal = true ->
  (forall a, Text.lower_char a = c -> a = c) ->
  match_literal literal s = Some rest ->
  Text.has_char c s = true.
Proof.
  intros Hin Hc. revert s.
  induction literal as [|b literal IH]; simpl in *; [discriminate|].
  intros [|a s]; [discriminate|].
  destruct (Ascii.eqb_spec (Text.lower_char a) b) as [Hab|]; [|discriminate].
  intros Hm. simpl.
  destruct (Ascii.eqb_spec b c) as [-> | Hbc].
  - rewrite (Hc a Hab), Ascii.eqb_refl. reflexivity.
  - simpl in Hin. rewrite (IH Hin s Hm). apply orb_true_r.
Qed.

Lemma url_pattern_needs_colon (s : string) :
  url_pattern_match s = true -> Text.has_char ":" s = true.
Proof.
  unfold url_pattern_match. intros [Hm | Hm]%orb_true_iff.
  - destruct (match_literal "http://" s) as [rest|] eqn:E; [|discriminate].
    exact (match_literal_has_char ":" "http://" s rest eq_refl lower_char_colon E).
  - destruct (match_literal "https://" s) as [rest|] eqn:E; [|discriminate].
    exact (match_literal_has_char ":" "https://" s rest eq_refl lower_char_colon E).
Qed.

(** X1. What [sanitize_input] returns holds only word characters, white
    space and hyphens, each of them unchanged by [lower], and neither
    starts nor ends with white space. *)
Theorem sanitize_input_alphabet (s : string) :
  all_chars sanitized_char (sanitize_input s) = true
  /\ Text.strip (sanitize_input s) = sanitize_input s
  /\ Text.lower (sanitize_input s) = sanitize_input s.
Proof.
  split; [apply sanitize_input_chars|].
  split; [apply sanitize_input_stripped|].
  apply lower_fixed, sanitize_input_chars.
Qed.

(** X2. [sanitize_input] is idempotent: sanitizing a sanitized text gives
    it back. *)
Theorem sanitize_input_idempotent (s : string) :
  sanitize_input (sanitize_input s) = sanitize_input s.
Proof. apply sanitize_input_idem. Qed.

Lemma sanitize_input_not_url (s : string) :
  url_pattern_match (sanitize_input s) = false.
Proof.
  destruct (url_pattern_match (sanitize_input s)) eqn:E; [|reflexivity].
  apply url_pattern_needs_colon in E.
  rewrite (all_chars_has_char sanitized_char ":" _ eq_refl (sanitize_input_chars s)) in E.
  discriminate E.
Qed.

(** ** The store over several calls *)

Lemma conflicts_key (r : listing) (table : list listing) :
  conflicts r table = true <-> listing_key r ∈ map listing_key table.
Proof.
  unfold conflicts. induction table as [|x table IH]; simpl.
  - split; [discriminate | intros Hin; inversion Hin].
  - rewrite orb_true_iff, IH, elem_of_cons, andb_true_iff, !String.eqb_eq.
    unfold listing_key. split.
    + intros [[Ht Hl] | Hin]; [left; congruence | right; exact Hin].
    + intros [[= Ht Hl] | Hin]; [left; split; congruence | right; exact Hin].
Qed.

(** The two ways a call of [insert_listing] ends: nothing changes, or the
    sanitized record, whose key was free, is appended to the table and to
    the list of new listings. *)
Lemma insert_listing_cases (db : DatabaseManager) (t l : string) (price : option Z) :
  insert_listing db t l price = (db, [])
  \/ exists p,
       price = Some p
       /\ conflicts (Listing (sanitize_input t) (sanitize_input l) p) (rows db) = false
       /\ insert_listing db t l price
          = ({| rows := (rows db ++ [Listing (sanitize_input t) (sanitize_input l) p])%list;
                new_listings :=
                  (new_listings db ++ [Listing (sanitize_input t) (sanitize_input l) p])%list |},
             [NewListingAdded (sanitize_input t) p (sanitize_input l)]).
Proof.
  destruct price as [p|]; [|left; reflexivity].
  destruct t as [|a t]; [left; reflexivity|].
  destruct l as [|b l]; [left; reflexivity|].
  destruct (conflicts (Listing (sanitize_input (String a t)) (sanitize_input (String b l)) p)
                      (rows db)) eqn:E.
  - left. apply insert_listing_known; [discriminate | discriminate | exact E].
  - right. exists p. split; [reflexivity|]. split; [exact E|].
    apply insert_listing_new; [discriminate | discriminate | exact E].
Qed.

(** What every call keeps, a sequence of calls keeps. *)
Lemma insert_all_keeps (P : DatabaseManager -> Prop) :
  (forall db t l p, P db -> P (fst (insert_listing db t l p))) ->
  forall calls db, P db -> P (insert_all db calls).
Proof.
  intros Hstep calls. unfold insert_all.
  induction calls as [|[[t l] p] calls IH]; intros db Hdb; simpl; [exact Hdb|].
  apply IH, Hstep, Hdb.
Qed.

Lemma insert_listing_unique (db : DatabaseManager) (t l : string) (p : option Z) :
  unique_keys (rows db) -> unique_keys (rows (fst (insert_listing db t l p))).
Proof.
  intros Hu. destruct (insert_listing_cases db t l p) as [-> | (q & _ & Hfree & ->)];
    [exact Hu|].
  unfold unique_keys in *. simpl. rewrite map_app. apply NoDup_app.
  split; [exact Hu|]. split.
  - intros k Hk Hk'. simpl in Hk'. apply list_elem_of_singleton in Hk'. subst k.
    apply conflicts_key in Hk. congruence.
  - simpl. apply NoDup_singleton.
Qed.

Lemma insert_listing_accounts (stored : list listing)
    (db : DatabaseManager) (t l : string) (p : option Z) :
  rows db = (stored ++ new_listings db)%list ->
  rows (fst (insert_listing db t l p))
  = (stored ++ new_listings (fst (insert_listing db t l p)))%list.
Proof.
  intros Hacc. destruct (insert_listing_cases db t l p) as [-> | (q & _ & _ & ->)];
    [exact Hacc|].
  simpl. rewrite Hacc, app_assoc. reflexivity.
Qed.

Lemma insert_listing_sanitized (db : DatabaseManager) (t l : string) (p : option Z) :
  Forall sanitized_record (rows db) ->
  Forall sanitized_record (rows (fst (insert_listing db t l p))).
Proof.
  intros Hs. destruct (insert_listing_cases db t l p) as [-> | (q & _ & _ & ->)];
    [exact Hs|].
  simpl. apply Forall_app. split; [exact Hs|].
  apply Forall_singleton. split; apply sanitize_input_idem.
Qed.

Lemma insert_listing_new_not_urls (db : DatabaseManager) (t l : string) (p : option Z) :
  Forall (fun r => url_pattern_match (link r) = false) (new_listings db) ->
  Forall (fun r => url_pattern_match (link r) = false)
         (new_listings (fst (insert_listing db t l p))).
Proof.
  intros Hs. destruct (insert_listing_cases db t l p) as [-> | (q & _ & _ & ->)];
    [exact Hs|].
  simpl. apply Forall_app. split; [exact Hs|].
  apply Forall_singleton. apply sanitize_input_not_url.
Qed.

(** A call with the title and the link of a sanitized record that is in
    the table changes nothing, whatever the price. *)
Lemma insert_listing_stored (db : DatabaseManager) (r : listing) (q : option Z) :
  sanitized_record r -> r ∈ rows db ->
  insert_listing db (title r) (link r) q = (db, []).
Proof.
  intros [Ht Hl] Hin.
  destruct (insert_listing_cases db (title r) (link r) q)
    as [E | (p & _ & Hfree & _)]; [exact E|].
  rewrite Ht, Hl in Hfree.
  assert (Hc : conflicts (Listing (title r) (link r) p) (rows db) = true).
  { apply conflicts_key. apply list_elem_of_In.
    apply (in_map listing_key (rows db) r). apply list_elem_of_In. exact Hin. }
  congruence.
Qed.

(** X3. The constraint [UNIQUE(title, link)] is kept: calls of
    [insert_listing], whatever their arguments, on a table in which no two
    rows hold the same title and link leave such a table. *)
Theorem insert_all_unique_keys
    (db : DatabaseManager) (calls : list (string * string * option Z)) :
  unique_keys (rows db) -> unique_keys (rows (insert_all db calls)).
Proof.
  apply (insert_all_keeps (fun db => unique_keys (rows db))).
  intros db' t l p. apply insert_listing_unique.
Qed.

Lemma insert_all_unique_keys_witness :
  unique_keys
    (rows (insert_all (DatabaseManager_init [Sample.nice_flat])
             [("Nice Flat", "https://a.example/x", Some 1300%Z);
              ("Loft", "https://a.example/y", Some 1500%Z);
              ("loft!", "https://a.example/y", Some 1900%Z);
              ("", "https://a.example/z", Some 1500%Z);
              ("Loft", "https://a.example/y", None)])).
Proof.
  apply (insert_all_unique_keys (DatabaseManager_init [Sample.nice_flat])).
  apply NoDup_singleton.
Defined.

(** X4. Session accounting: after any calls of [insert_listing] on a
    store opened on a database that held [stored], the table is [stored]
    followed by the list of new listings, in the order of insertion: rows
    are never changed or removed, and the list of new listings holds the
    rows this session added and nothing else. *)
Theorem insert_all_accounts
    (stored : list listing) (calls : list (string * string * option Z)) :
  let db := insert_all (DatabaseManager_init stored) calls in
  fetch_all_listings db = (stored ++ get_new_listings db)%list.
Proof.
  apply (insert_all_keeps
           (fun db => rows db = (stored ++ new_listings db)%list)).
  - intros db t l p. apply insert_listing_accounts.
  - simpl. symmetry. apply app_nil_r.
Qed.

(** X5. No listing reported as new carries a link that the scraper's own
    URL pattern accepts: the link is stored sanitized, without its colon,
    slashes and dots. *)
Theorem new_listings_links_not_urls
    (stored : list listing) (calls : list (string * string * option Z)) :
  Forall (fun r => url_pattern_match (link r) = false)
         (get_new_listings (insert_all (DatabaseManager_init stored) calls)).
Proof.
  apply (insert_all_keeps
           (fun db => Forall (fun r => url_pattern_match (link r) = false)
                             (new_listings db))).
  - intros db t l p. apply insert_listing_new_not_urls.
  - apply Forall_nil_2.
Qed.

(** Calls none of which raises do what [insert_all] says. *)
Lemma insert_all_checked_returned
    (calls : list (string * string * option Z)) : forall self db,
  insert_all_checked self calls = Returned db -> db = insert_all self calls.
Proof.
  induction calls as [|[[t l] p] calls IH]; intros self db; simpl.
  - intros [= <-]. reflexivity.
  - unfold insert_listing_checked.
    destruct (insert_listing_raises t l p); [discriminate|].
    destruct (insert_listing self t l p) as [db1 log1]. simpl. apply IH.
Qed.

(** X6. Round trip, for titles and links of code points up to U+00FF and
    prices that fit the 64 bits of SQLite's integers: in a store that was
    filled by calls of [insert_listing] only, none of which raised,
    offering again the title and the link of any stored record, with any
    such price or none, raises nothing, changes nothing and logs
    nothing. *)
Theorem insert_all_reinsert_noop
    (calls : list (string * string * option Z)) (db : DatabaseManager)
    (r : listing) (q : option Z) :
  insert_all_checked (DatabaseManager_init []) calls = Returned db ->
  price_fits q = true ->
  r ∈ fetch_all_listings db ->
  insert_listing_checked db (title r) (link r) q = Returned (db, []).
Proof.
  intros Hcalls Hq Hin.
  apply insert_all_checked_returned in Hcalls. subst db.
  assert (Hs : Forall sanitized_record
                 (rows (insert_all (DatabaseManager_init []) calls))).
  { apply (insert_all_keeps (fun db => Forall sanitized_record (rows db))).
    - intros db' t l p. apply insert_listing_sanitized.
    - apply Forall_nil_2. }
  rewrite insert_listing_checked_fits by exact Hq. f_equal.
  apply insert_listing_stored; [|exact Hin].
  rewrite Forall_forall in Hs. apply Hs, Hin.
Qed.

Lemma insert_all_reinsert_noop_witness :
  let db := insert_all (DatabaseManager_init [])
              [("Nice Flat", "https://a.example/x", Some 1200%Z);
               ("Loft", "https://a.example/y", Some 1500%Z)] in
  insert_listing_checked db "nice flat" "httpsaexamplex" (Some 1999%Z)
  = Returned (db, []).
Proof.
  apply (insert_all_reinsert_noop
           [("Nice Flat", "https://a.example/x", Some 1200%Z);
            ("Loft", "https://a.example/y", Some 1500%Z)]
           _ Sample.nice_flat (Some 1999%Z)).
  - reflexivity.
  - reflexivity.
  - apply list_elem_of_In. left. reflexivity.
Defined.

(** ** The notifier over several calls *)

Section NotifierRuns.

Context {settings : Settings} {world : World}.

(** A call that dispatches came a window or more after the stored time,
    and stored its own. *)
Lemma dispatched_past_window (now now' last : Q) (ls : list listing) :
  dispatched (send_notification now now' ls last) <> [] ->
  (throttle_window <= now - last)%Q
  /\ last_notification_time (send_notification now now' ls last) = now'.
Proof.
  intros Hd.
  destruct (Qltb (now - last) throttle_window) eqn:E.
  - apply Qltb_lt in E.
    rewrite (send_notification_throttled now now' last ls E) in Hd.
    simpl in Hd. congruence.
  - apply Qltb_ge in E. split; [exact E|].
    apply send_notification_stamps. exact E.
Qed.

(** The stored time after a call is the one before it or the one read. *)
Lemma last_notification_time_cases (now now' last : Q) (ls : list listing) :
  last_notification_time (send_notification now now' ls last) = last
  \/ last_notification_time (send_notification now now' ls last) = now'.
Proof.
  destruct (Qltb (now - last) throttle_window) eqn:E.
  - left. apply Qltb_lt in E.
    rewrite (send_notification_throttled now now' last ls E). reflexivity.
  - right. apply Qltb_ge in E. apply send_notification_stamps. exact E.
Qed.

(** A dispatch among calls that all store times from [b] on, started on a
    stored time from [b] on, comes a window or more after [b]. *)
Lemma later_dispatch (calls : list notifier_call) : forall (last b : Q) j cj nj,
  (b <= last)%Q ->
  Forall (fun c => (b <= stamped_at c)%Q) calls ->
  calls !! j = Some cj ->
  send_notifications calls last !! j = Some nj ->
  dispatched nj <> [] ->
  (throttle_window <= checked_at cj - b)%Q.
Proof.
  induction calls as [|c rest IH]; intros last b j cj nj Hb Hall Hc Hn Hd.
  - rewrite lookup_nil in Hc. discriminate.
  - apply Forall_cons in Hall as [Hbc Hall].
    destruct j as [|j]; simpl in Hc, Hn.
    + injection Hc as <-. injection Hn as <-.
      apply dispatched_past_window in Hd as [Hw _]. lra.
    + refine (IH _ b j cj nj _ Hall Hc Hn Hd).
      destruct (last_notification_time_cases (checked_at c) (stamped_at c) last (offered c))
        as [-> | ->]; assumption.
Qed.

(** X7. The rate limit: in any sequence of calls whose stored clock
    readings do not go backwards, two calls that dispatch a message are a
    throttle window or more apart (from the time the earlier one stored to
    the time the later one compared), whatever the lists and the outcomes
    of the mail sessions. *)
Theorem dispatches_window_apart
    (calls : list notifier_call) (last : Q) (i j : nat)
    (ci cj : notifier_call) (ni nj : notification) :
  (forall a b ca cb, (a < b)%nat -> calls !! a = Some ca -> calls !! b = Some cb ->
                     (stamped_at ca <= stamped_at cb)%Q) ->
  (i < j)%nat ->
  calls !! i = Some ci -> calls !! j = Some cj ->
  send_notifications calls last !! i = Some ni ->
  send_notifications calls last !! j = Some nj ->
  dispatched ni <> [] -> dispatched nj <> [] ->
  (throttle_window <= checked_at cj - stamped_at ci)%Q.
Proof.
  revert last i j.
  induction calls as [|c rest IH]; intros last i j Hsorted Hij Hci Hcj Hni Hnj Hdi Hdj.
  - rewrite lookup_nil in Hci. discriminate.
  - assert (Hrest : forall a b ca cb, (a < b)%nat ->
                rest !! a = Some ca -> rest !! b = Some cb ->
                (stamped_at ca <= stamped_at cb)%Q).
    { intros a b ca cb Hab Ha Hb.
      apply (Hsorted (S a) (S b) ca cb); [lia | exact Ha | exact Hb]. }
    destruct j as [|j]; [lia|].
    destruct i as [|i]; simpl in Hci, Hcj, Hni, Hnj.
    + injection Hci as <-. injection Hni as <-.
      apply dispatched_past_window in Hdi as [_ Hstamp].
      rewrite Hstamp in Hnj.
      apply (later_dispatch rest (stamped_at c) (stamped_at c) j cj nj);
        try assumption; [lra|].
      apply Forall_forall. intros x Hx.
      apply list_elem_of_lookup in Hx as [k Hk].
      apply (Hsorted 0%nat (S k) c x); [lia | reflexivity | exact Hk].
    + refine (IH _ i j Hrest _ Hci Hcj Hni Hnj Hdi Hdj). lia.
Qed.

End NotifierRuns.

Lemma dispatches_window_apart_witness :
  let calls :=
    [ {| checked_at := 3600; stamped_at := 3601; offered := [Sample.nice_flat] |};
      {| checked_at := 5000; stamped_at := 5001; offered := [Sample.nice_flat] |};
      {| checked_at := 7300; stamped_at := 7301; offered := [Sample.nice_flat] |} ] in
  (throttle_window <= 7300 - 3601)%Q.
Proof.
  intros calls.
  apply (@dispatches_window_apart Sample.settings
           (Sample.world (SMTPException "SMTPServerDisconnected"))
           calls 0 0 2
           {| checked_at := 3600; stamped_at := 3601; offered := [Sample.nice_flat] |}
           {| checked_at := 7300; stamped_at := 7301; offered := [Sample.nice_flat] |}
           (@send_notification Sample.settings
              (Sample.world (SMTPException "SMTPServerDisconnected"))
              3600 3601 [Sample.nice_flat] 0)
           (@send_notification Sample.settings
              (Sample.world (SMTPException "SMTPServerDisconnected"))
              7300 7301 [Sample.nice_flat] 3601)).
  - intros [|[|[|a]]] [|[|[|b]]] ca cb Hab Ha Hb; try lia;
      simpl in Ha, Hb; try discriminate;
      injection Ha as <-; injection Hb as <-; vm_compute; discriminate.
  - lia.
  - reflexivity.
  - reflexivity.
  - reflexivity.
  - reflexivity.
  - discriminate.
  - discriminate.
Defined.

(** ** Prices and pages *)

Section Pages.

Context {settings : Settings} {world : World}.

Lemma int_of_amount_bounds (a : Q) :
  ((0 <= a -> inject_Z (int_of_amount a) <= a < inject_Z (int_of_amount a) + 1)
   /\ (a <= 0 -> inject_Z (int_of_amount a) - 1 < a <= inject_Z (int_of_amount a)))%Q.
Proof.
  destruct a as [n d]. unfold int_of_amount, Qle, Qlt. simpl.
  pose proof (Z.quot_rem' n (Z.pos d)) as Hqr.
  split; intros Hn.
  - assert (0 <= n)%Z by lia.
    pose proof (Z.rem_bound_pos n (Z.pos d) ltac:(lia) ltac:(lia)). nia.
  - assert (n <= 0)%Z by lia.
    pose proof (Z.rem_bound_pos_neg n (Z.pos d) ltac:(lia) ltac:(lia)). nia.
Qed.

(** X8. [parse_price] truncates towards zero: when the price library
    reads an amount, the integer returned is the amount without its
    fraction, for an amount of either sign, and nothing is logged. *)
Theorem parse_price_truncates (price_str : string) (amount : Q) :
  Price_fromstring price_str = Some amount ->
  exists p,
    parse_price price_str = (Some p, [])
    /\ ((0 <= amount -> inject_Z p <= amount < inject_Z p + 1)
        /\ (amount <= 0 -> inject_Z p - 1 < amount <= inject_Z p))%Q.
Proof.
  intros Ha. exists (int_of_amount amount). split.
  - unfold parse_price. rewrite Ha. reflexivity.
  - apply int_of_amount_bounds.
Qed.

(** One round of the loop of [parse], on the store. *)
Lemma parse_listing_store
    (response_url : string) (sel : selector_set)
    (db : DatabaseManager) (n : nat) (log : list log_record) (node : Selector) :
  (parse_listing response_url sel (db, n, log) node).1.1
  = match offered_listing response_url sel node with
    | Some (t, l, p) => fst (insert_listing db t l p)
    | None => db
    end.
Proof.
  unfold parse_listing, offered_listing.
  destruct (parse_price _) as [[p|] log_price]; cbn [fst]; [|reflexivity].
  destruct ((min_price <=? p)%Z && (p <=? max_price)%Z); [|reflexivity].
  destruct (insert_listing db _ _ (Some p)). reflexivity.
Qed.

Lemma parse_loop_store
    (response_url : string) (sel : selector_set) (nodes : list Selector) :
  forall (db : DatabaseManager) (n : nat) (log : list log_record),
    (fold_left (parse_listing response_url sel) nodes (db, n, log)).1.1
    = insert_all db (omap (offered_listing response_url sel) nodes).
Proof.
  induction nodes as [|node nodes IH]; intros db n log; [reflexivity|].
  cbn [fold_left].
  pose proof (parse_listing_store response_url sel db n log node) as Hstep.
  destruct (parse_listing response_url sel (db, n, log) node) as [[db' n'] log'].
  rewrite IH. simpl in Hstep. subst db'.
  cbn [omap list_omap]. 
  destruct (offered_listing response_url sel node) as [[[t l] p]|]; reflexivity.
Qed.

(** The store after [parse] is the store before it with the offers of the
    page inserted in turn. *)
Lemma parse_store (self : Pavouk) (response : Response) :
  db_manager (parse self response).1.1
  = insert_all (db_manager self) (offered_listings (selectors self) response).
Proof.
  unfold parse, offered_listings.
  destruct (selectors self !! url response) as [sel|].
  - destruct (css response (listing_item sel)) as [|node nodes] eqn:Hnodes.
    + destruct (make_request _). reflexivity.
    + pose proof (parse_loop_store (url response) sel (node :: nodes)
                    (db_manager self) 0
                    [NumberOfListingsFound (length (node :: nodes))]) as Hloop.
      destruct (fold_left _ _ _) as [[db n] log].
      destruct (make_request _). simpl in *. exact Hloop.
  - destruct (make_request _). reflexivity.
Qed.

(** Every offer of a page has a price, and it lies in the band. *)
Lemma offered_listings_in_band
    (selectors : gmap string selector_set) (response : Response) :
  Forall (fun call => exists p, call.2 = Some p /\ (min_price <= p <= max_price)%Z)
         (offered_listings selectors response).
Proof.
  unfold offered_listings. destruct (selectors !! url response) as [sel|];
    [|apply Forall_nil_2].
  apply Forall_forall. intros call Hin.
  apply list_elem_of_omap in Hin as (node & _ & Hoffer).
  unfold offered_listing in Hoffer.
  destruct (parse_price _).1 as [p|]; [|discriminate].
  destruct ((min_price <=? p)%Z && (p <=? max_price)%Z) eqn:E; [|discriminate].
  injection Hoffer as <-. exists p. split; [reflexivity|].
  apply andb_true_iff in E as [Hlo Hhi]. lia.
Qed.

End Pages.

Lemma parse_price_truncates_witness :
  exists p,
    @parse_price (Sample.world Delivered) "$1,200" = (Some p, [])
    /\ ((0 <= 1200 -> inject_Z p <= 1200 < inject_Z p + 1)
        /\ (1200 <= 0 -> inject_Z p - 1 < 1200 <= inject_Z p))%Q.
Proof.
  apply (@parse_price_truncates (Sample.world Delivered) "$1,200" 1200%Q).
  reflexivity.
Defined.

(** ** The store across a crawl *)

Section CrawlStore.

Context {settings : Settings} {world : World}.

(** What every call of [insert_listing] with a price of the band keeps,
    the calls a page leads to keep. *)
Lemma insert_all_keeps_in_band (P : DatabaseManager -> Prop) :
  (forall db t l p, (min_price <= p <= max_price)%Z ->
                    P db -> P (fst (insert_listing db t l (Some p)))) ->
  forall calls db,
    Forall (fun call => exists p, call.2 = Some p /\ (min_price <= p <= max_price)%Z)
           calls ->
    P db -> P (insert_all db calls).
Proof.
  intros Hstep calls. unfold insert_all.
  induction calls as [|[[t l] q] calls IH]; intros db Hcalls Hdb; simpl; [exact Hdb|].
  apply Forall_cons in Hcalls as [(p & Hq & Hband) Hcalls]. simpl in Hq. subst q.
  apply IH; [exact Hcalls|]. apply Hstep; assumption.
Qed.

Lemma parse_keeps (P : DatabaseManager -> Prop) (self : Pavouk) (response : Response) :
  (forall db t l p, (min_price <= p <= max_price)%Z ->
                    P db -> P (fst (insert_listing db t l (Some p)))) ->
  P (db_manager self) -> P (db_manager (parse self response).1.1).
Proof.
  intros Hstep Hdb. rewrite parse_store.
  apply (insert_all_keeps_in_band P Hstep); [|exact Hdb].
  apply offered_listings_in_band.
Qed.

Lemma crawl_step_keeps (P : DatabaseManager -> Prop) (c c' : Crawl) :
  (forall db t l p, (min_price <= p <= max_price)%Z ->
                    P db -> P (fst (insert_listing db t l (Some p)))) ->
  crawl_step c = Some c' ->
  P (db_manager (spider c)) -> P (db_manager (spider c')).
Proof.
  intros Hstep Hc Hdb. unfold crawl_step in Hc.
  destruct (pending c) as [|request queue]; [discriminate|].
  destruct (download (request_url request)) as [response|reason].
  - pose proof (parse_keeps P (spider c) response Hstep Hdb) as Hp.
    destruct (parse (spider c) response) as [[self' requests] log].
    injection Hc as <-. exact Hp.
  - injection Hc as <-. exact Hdb.
Qed.

Lemma crawl_steps_keeps (P : DatabaseManager -> Prop) (n : nat) : forall c,
  (forall db t l p, (min_price <= p <= max_price)%Z ->
                    P db -> P (fst (insert_listing db t l (Some p)))) ->
  P (db_manager (spider c)) -> P (db_manager (spider (crawl_steps n c))).
Proof.
  induction n as [|n IH]; intros c Hstep Hdb; simpl; [exact Hdb|].
  destruct (crawl_step c) as [c'|] eqn:E; [|exact Hdb].
  apply IH; [exact Hstep|]. exact (crawl_step_keeps P c c' Hstep E Hdb).
Qed.

Lemma insert_listing_in_band (select : DatabaseManager -> list listing)
    (db : DatabaseManager) (t l : string) (p : Z) :
  select = rows \/ select = new_listings ->
  (min_price <= p <= max_price)%Z ->
  Forall in_band (select db) ->
  Forall in_band (select (fst (insert_listing db t l (Some p)))).
Proof.
  intros Hsel Hband Hall.
  destruct (insert_listing_cases db t l (Some p)) as [-> | (q & [= <-] & _ & ->)];
    [exact Hall|].
  destruct Hsel as [-> | ->]; simpl in *;
    (apply Forall_app; split; [exact Hall|]; apply Forall_singleton; exact Hband).
Qed.

(** X10. The band holds in the store: at every point of a crawl, every
    listing reported as new has its price in the configured band, bounds
    included, and so has every row of the table provided the rows the
    database held before had. *)
Theorem crawl_prices_in_band
    (urls0 : list string) (stored : list listing)
    (sels : gmap string selector_set) (n : nat) :
  let c := crawl_steps n (crawl_start (Pavouk_init urls0 (DatabaseManager_init stored) sels)) in
  Forall in_band (get_new_listings (db_manager (spider c)))
  /\ (Forall in_band stored -> Forall in_band (fetch_all_listings (db_manager (spider c)))).
Proof.
  intros c. split.
  - apply (crawl_steps_keeps (fun db => Forall in_band (new_listings db))).
    + intros db t l p. apply insert_listing_in_band. right. reflexivity.
    + rewrite crawl_start_spider. apply Forall_nil_2.
  - intros Hstored.
    apply (crawl_steps_keeps (fun db => Forall in_band (rows db))).
    + intros db t l p. apply insert_listing_in_band. left. reflexivity.
    + rewrite crawl_start_spider. exact Hstored.
Qed.

(** X11. Session accounting across a crawl: at every point of a crawl on a
    store opened on a database that held [stored], the table is [stored]
    followed by the listings reported as new; and when no two rows of
    [stored] held the same title and link, no two rows of the table do. *)
Theorem crawl_accounts
    (urls0 : list string) (stored : list listing)
    (sels : gmap string selector_set) (n : nat) :
  let c := crawl_steps n (crawl_start (Pavouk_init urls0 (DatabaseManager_init stored) sels)) in
  fetch_all_listings (db_manager (spider c))
  = (stored ++ get_new_listings (db_manager (spider c)))%list
  /\ (unique_keys stored -> unique_keys (fetch_all_listings (db_manager (spider c)))).
Proof.
  intros c. split.
  - apply (crawl_steps_keeps
             (fun db => rows db = (stored ++ new_listings db)%list)).
    + intros db t l p _. apply insert_listing_accounts.
    + rewrite crawl_start_spider. simpl. symmetry. apply app_nil_r.
  - intros Hstored.
    apply (crawl_steps_keeps (fun db => unique_keys (rows db))).
    + intros db t l p _. apply insert_listing_unique.
    + rewrite crawl_start_spider. exact Hstored.
Qed.

(** How a crawl in sequence ends, given steps enough to reach the end of
    the list. *)
Lemma crawl_steps_ends (n : nat) : forall c,
  in_sequence c ->
  (current_url_index (spider c) <= length (urls (spider c)))%nat ->
  (length (urls (spider c)) <= current_url_index (spider c) + n)%nat ->
  let c' := crawl_steps n c in
  let k := current_url_index (spider c') in
  crawl_step c' = None
  /\ urls (spider c') = urls (spider c)
  /\ (forall j u, (current_url_index (spider c) <= j < k)%nat ->
                  urls (spider c) !! j = Some u ->
                  exists response, download u = Downloaded response)
  /\ ((k = length (urls (spider c)) /\ requested c' = urls (spider c))
      \/ (exists u reason,
            urls (spider c) !! k = Some u
            /\ download u = DownloadFailed reason
            /\ requested c' = take (S k) (urls (spider c)))).
Proof.
  induction n as [|n IH]; intros c Hseq Hle Hn.
  - simpl. split; [apply crawl_step_end; [exact Hseq | lia]|].
    split; [reflexivity|]. split; [intros j u Hj; lia|].
    left. split; [lia|]. destruct Hseq as [_ ->]. apply take_ge. lia.
  - destruct (decide (current_url_index (spider c) < length (urls (spider c)))%nat)
      as [Hlt|Hge].
    + destruct (lookup_lt_is_Some_2 _ _ Hlt) as [u Hu].
      destruct (download u) as [response|reason] eqn:Hdl.
      * destruct (crawl_step_downloaded c u response Hseq Hu Hdl)
          as (c1 & Hstep & Hseq1 & Hurls & _ & Hidx).
        cbn [crawl_steps]. rewrite Hstep.
        destruct (IH c1 Hseq1) as (Hstop & Hurls' & Hdown & Hend).
        { rewrite Hidx, Hurls. lia. }
        { rewrite Hidx, Hurls. lia. }
        rewrite Hurls in Hurls', Hdown, Hend. rewrite Hidx in Hdown.
        split; [exact Hstop|]. split; [exact Hurls'|]. split; [|exact Hend].
        intros j v Hj Hv.
        destruct (decide (j = current_url_index (spider c))) as [-> | Hne].
        -- exists response. congruence.
        -- apply (Hdown j v); [lia | exact Hv].
      * pose proof (crawl_step_failed c u reason Hseq Hu Hdl) as Hstep.
        cbn [crawl_steps]. rewrite Hstep.
        rewrite crawl_steps_stopped by reflexivity. simpl.
        split; [reflexivity|]. split; [reflexivity|].
        split; [intros j v Hj; lia|].
        right. exists u, reason. auto.
    + assert (Hstop : crawl_step c = None) by (apply crawl_step_end; [exact Hseq | lia]).
      rewrite (crawl_steps_stopped _ _ Hstop).
      split; [exact Hstop|]. split; [reflexivity|]. split; [intros j u Hj; lia|].
      left. split; [lia|]. destruct Hseq as [_ ->]. apply take_ge. lia.
Qed.

End CrawlStore.

(** ** URL validation, one URL at a time *)

Section GateRounds.

Context {settings : Settings} {world : World}.

Implicit Types (valid_urls : gset string) (log : list log_record).

(** A round raises on the URLs that break [urlparse], and on no other. *)
Lemma validate_url_raises url valid_urls log :
  (exists e, validate_url url (valid_urls, log) = Raised e)
  <-> breaks_urlparse url = true.
Proof.
  unfold validate_url, breaks_urlparse.
  destruct (url_pattern_match url); simpl.
  - destruct (urlparse_netloc url) as [domain|].
    + split; [|discriminate]. intros [e He].
      destruct (requests_get _) as [status_code text|e'];
        [destruct (status_code =? 200)%Z; [destruct (negb _)|]|]; discriminate.
    + split; [reflexivity | intros _; eexists; reflexivity].
  - split; [intros [e He]; discriminate | discriminate].
Qed.

(** A round that returns adds the URL when it passes, and only then. *)
Lemma validate_url_returns url valid_urls log valid_urls' log' :
  validate_url url (valid_urls, log) = Returned (valid_urls', log') ->
  valid_urls' = if passes url then valid_urls ∪ {[url]} else valid_urls.
Proof.
  unfold validate_url, passes.
  destruct (url_pattern_match url); simpl; [|intros [= <- _]; reflexivity].
  destruct (urlparse_netloc url) as [domain|]; [|discriminate].
  destruct (requests_get _) as [status_code text|e];
    [|intros [= <- _]; reflexivity].
  destruct (status_code =? 200)%Z; simpl; [|intros [= <- _]; reflexivity].
  destruct (negb _); intros [= <- _]; reflexivity.
Qed.

(** The set the loop returns: what it started from and the URLs of the
    list that pass. *)
Lemma validate_loop_returns urls0 : forall valid_urls log valid_urls' log',
  validate_loop urls0 (valid_urls, log) = Returned (valid_urls', log') ->
  forall u, u ∈ valid_urls' <-> u ∈ valid_urls \/ (u ∈ urls0 /\ passes u = true).
Proof.
  induction urls0 as [|url rest IH]; intros valid_urls log valid_urls' log';
    cbn [validate_loop].
  - intros [= <- _] u. split; [auto|]. intros [Hu | [Hu _]]; [exact Hu|].
    apply elem_of_nil in Hu. contradiction.
  - destruct (validate_url url (valid_urls, log)) as [[valid1 log1]|e] eqn:E;
      [|discriminate].
    intros Hloop u. rewrite (IH _ _ _ _ Hloop u).
    apply validate_url_returns in E. subst valid1. rewrite elem_of_cons.
    destruct (passes url) eqn:Hp.
    + rewrite elem_of_union, elem_of_singleton. split.
      * intros [[Hu | ->] | [Hu Hpu]]; auto.
      * intros [Hu | [[-> | Hu] Hpu]]; auto.
    + split.
      * intros [Hu | [Hu Hpu]]; auto.
      * intros [Hu | [[-> | Hu] Hpu]]; [auto | congruence | auto].
Qed.

(** The loop raises when a URL of the list breaks [urlparse], and only
    then. *)
Lemma validate_loop_raises urls0 : forall valid_urls log,
  (exists e, validate_loop urls0 (valid_urls, log) = Raised e)
  <-> exists u, u ∈ urls0 /\ breaks_urlparse u = true.
Proof.
  induction urls0 as [|url rest IH]; intros valid_urls log; cbn [validate_loop].
  - split; [intros [e He]; discriminate|].
    intros (u & Hu & _). apply elem_of_nil in Hu. contradiction.
  - destruct (validate_url url (valid_urls, log)) as [[valid1 log1]|e] eqn:E.
    + rewrite (IH valid1 log1).
      assert (Hok : breaks_urlparse url = false).
      { destruct (breaks_urlparse url) eqn:Hb; [|reflexivity].
        apply (validate_url_raises url valid_urls log) in Hb as [e He]. congruence. }
      split.
      * intros (u & Hu & Hb). exists u. split; [right; exact Hu | exact Hb].
      * intros (u & Hu & Hb). apply elem_of_cons in Hu as [-> | Hu]; [congruence|].
        exists u. auto.
    + split; [|intros _; eexists; reflexivity].
      intros _. exists url. split; [left|].
      apply (validate_url_raises url valid_urls log). eexists. exact E.
Qed.

Lemma admitted_returns urls0 valid_urls :
  admitted urls0 = Some valid_urls ->
  forall u, u ∈ valid_urls <-> u ∈ urls0 /\ passes u = true.
Proof.
  unfold admitted, validate_urls.
  destruct (validate_loop urls0 (∅, [ValidatingUrls])) as [[valid log]|e] eqn:E;
    [|discriminate].
  intros [= <-] u. rewrite (validate_loop_returns _ _ _ _ _ E u).
  split; [|auto]. intros [Hu | Hu]; [|exact Hu].
  apply not_elem_of_empty in Hu. contradiction.
Qed.

(** X13. The admitted set, when [validate_urls] returns, holds the URLs
    of the list that match the pattern, whose robots file is served with
    status 200 and that no disallowed path of that file matches, and no
    other: each URL is judged on its own. *)
Theorem admitted_are_those_that_pass (urls0 : list string) valid_urls :
  admitted urls0 = Some valid_urls ->
  forall u, u ∈ valid_urls <-> u ∈ urls0 /\ passes u = true.
Proof. apply admitted_returns. Qed.

(** X14. The admitted set does not depend on the order of the list nor on
    repetitions in it: two lists with the same URLs, on which
    [validate_urls] returns, have the same admitted set. *)
Theorem admitted_of_same_urls (urls1 urls2 : list string) valid1 valid2 :
  (forall u, u ∈ urls1 <-> u ∈ urls2) ->
  admitted urls1 = Some valid1 ->
  admitted urls2 = Some valid2 ->
  valid1 = valid2.
Proof.
  intros Hsame H1 H2. apply set_eq. intros u.
  rewrite (admitted_returns _ _ H1 u), (admitted_returns _ _ H2 u), (Hsame u).
  reflexivity.
Qed.


(** X16. Robots exclusion holds for https URLs: a URL with the lower-case
    scheme https whose host serves a robots file that disallows, by the
    line matching of the code, a prefix of its path is in no admitted set,
    whatever else the list holds. *)
Theorem https_disallowed_never_admitted
    (host path text : string) (urls0 : list string) valid_urls :
  urlparse_netloc ("https://" ++ host ++ path) = Some host ->
  requests_get ("https://" ++ host ++ "/robots.txt") = HttpResponse 200 text ->
  path_disallowed text path = true ->
  admitted urls0 = Some valid_urls ->
  ("https://" ++ host ++ path) ∉ valid_urls.
Proof.
  intros Hnetloc Hget Hdis Hadm Hin.
  apply (admitted_returns _ _ Hadm) in Hin as [_ Hpass].
  unfold passes in Hpass. rewrite Hnetloc, Hget, disallowed_https, Hdis in Hpass.
  rewrite andb_false_r in Hpass. discriminate Hpass.
Qed.

End GateRounds.

Lemma admitted_are_those_that_pass_witness :
  let urls0 := ["https://a.example/my_scraper/x"; "https://a.example/ok";
                "ftp://a.example/ok"; "https://b.example/flats"] in
  let passes := @passes Sample.settings (Sample.world Delivered) in
  ("https://a.example/ok" ∈ ({["https://a.example/ok"]} : gset string)
   <-> "https://a.example/ok" ∈ urls0 /\ passes "https://a.example/ok" = true)
  /\ ("https://a.example/my_scraper/x" ∈ ({["https://a.example/ok"]} : gset string)
      <-> "https://a.example/my_scraper/x" ∈ urls0
          /\ passes "https://a.example/my_scraper/x" = true).
Proof.
  intros urls0 passes.
  split;
    apply (@admitted_are_those_that_pass Sample.settings (Sample.world Delivered)
             urls0 {["https://a.example/ok"]}); reflexivity.
Defined.

Lemma admitted_of_same_urls_witness :
  let admitted := @admitted Sample.settings (Sample.world Delivered) in
  default ∅ (admitted ["https://a.example/my_scraper/x"; "https://a.example/ok"])
  = default ∅ (admitted ["https://a.example/ok"; "https://a.example/my_scraper/x";
                         "https://a.example/ok"]).
Proof.
  apply (@admitted_of_same_urls Sample.settings (Sample.world Delivered)
           ["https://a.example/my_scraper/x"; "https://a.example/ok"]
           ["https://a.example/ok"; "https://a.example/my_scraper/x";
            "https://a.example/ok"]).
  - intros u. rewrite !elem_of_cons. tauto.
  - reflexivity.
  - reflexivity.
Defined.

Lemma https_disallowed_never_admitted_witness :
  ("https://" ++ "a.example" ++ "/my_scraper/x")
  ∉ ({["https://a.example/ok"]} : gset string).
Proof.
  apply (@https_disallowed_never_admitted Sample.settings (Sample.world Delivered)
           "a.example" "/my_scraper/x" Sample.robots_txt
           ["https://a.example/ok"; "https://a.example/my_scraper/x"]);
    reflexivity.
Defined.

(** A URL that breaks [urlparse] makes the call raise, though the URL
    before it would be admitted. *)
Example validate_urls_raises_sample :
  @admitted Sample.settings (Sample.world Delivered)
            ["https://a.example/ok"; "http://[a/"] = None.
Proof. reflexivity. Qed.

(** ** The main block *)

Section MainBlock.

Context {settings : Settings} {world : World}.

(** The URLs a crawl requests are the first ones of its list. *)
Lemma crawl_requested_prefix
    (urls0 : list string) (db : DatabaseManager) (sels : gmap string selector_set) :
  exists m, requested (crawl (Pavouk_init urls0 db sels)) = take m urls0.
Proof.
  pose proof (crawl_start_in_sequence urls0 db sels) as Hseq.
  pose proof (crawl_start_spider (Pavouk_init urls0 db sels)) as Hstart.
  destruct (crawl_steps_ends (length urls0) (crawl_start (Pavouk_init urls0 db sels)) Hseq)
    as (_ & _ & _ & Hend).
  { rewrite Hstart. simpl. lia. }
  { rewrite Hstart. simpl. lia. }
  rewrite Hstart in Hend. simpl in Hend.
  destruct Hend as [[_ Hall] | (u & reason & _ & _ & Hupto)].
  - exists (length urls0). unfold crawl. simpl. rewrite Hall.
    symmetry. apply take_ge. lia.
  - eexists. unfold crawl. simpl. exact Hupto.
Qed.

Lemma validate_urls_admitted (urls0 : list string) valid_set log :
  validate_urls urls0 = Returned (valid_set, log) ->
  admitted urls0 = Some valid_set.
Proof. intros E. unfold admitted. rewrite E. reflexivity. Qed.

(** X18. The crawl of the main block requests admitted URLs only, each at
    most once: every URL requested is the URL of an entry of the YAML
    file, matches the pattern, and its host's robots file was served with
    status 200 and has no disallowed path that matches it. This holds in
    whatever order the admitted set is listed. *)
Theorem main_requests_admitted_only
    (list_of_set : gset string -> list string)
    (entries : list site_entry) (stored : list listing)
    (c : Crawl) (output : list main_record) :
  (forall valid_set, list_of_set valid_set ≡ₚ elements valid_set) ->
  main list_of_set entries stored = MainFinished c output ->
  NoDup (requested c)
  /\ forall u, u ∈ requested c ->
       (exists entry, entry ∈ entries /\ entry_url entry = Some u)
       /\ passes u = true.
Proof.
  intros Horder. unfold main.
  destruct (selectors_of entries ∅) as [sels|]; [|discriminate].
  destruct (mapM entry_url entries) as [all_urls|]; [|discriminate].
  destruct (validate_urls (omap entry_url entries)) as [[valid_set log]|e] eqn:Hval;
    [|discriminate].
  apply validate_urls_admitted in Hval.
  destruct (list_of_set valid_set) as [|u0 rest] eqn:Hlist; [discriminate|].
  intros [= <- _].
  destruct (crawl_requested_prefix (u0 :: rest) (DatabaseManager_init stored) sels)
    as [m ->].
  split.
  - apply (sublist_NoDup _ (u0 :: rest)); [|apply sublist_take].
    rewrite <- Hlist, (Horder valid_set). apply NoDup_elements.
  - intros u Hu. apply subseteq_take in Hu.
    rewrite <- Hlist, (Horder valid_set) in Hu. apply elem_of_elements in Hu.
    apply (admitted_returns _ _ Hval) in Hu as [Hin Hpass].
    split; [|exact Hpass].
    apply list_elem_of_omap in Hin. exact Hin.
Qed.

(** X19. An entry of the YAML file without the key [url] aborts the main
    block with a [KeyError] before any URL is validated or requested: the
    test [if 'url' in entry] of the main block never gets to skip an
    entry. *)
Theorem main_entry_without_url
    (list_of_set : gset string -> list string)
    (entries : list site_entry) (stored : list listing) (entry : site_entry) :
  entry ∈ entries -> entry_url entry = None ->
  main list_of_set entries stored = MainRaised "KeyError".
Proof.
  intros Hin Hnone. unfold main.
  destruct (selectors_of entries ∅) as [sels|]; [|reflexivity].
  assert (Hm : mapM entry_url entries = None).
  { apply mapM_None. apply Exists_exists. exists entry. auto. }
  rewrite Hm. reflexivity.
Qed.

End MainBlock.

Lemma main_requests_admitted_only_witness :
  let entries :=
    [ {| entry_url := Some Sample.site; entry_selectors := Some Sample.site_selectors |};
      {| entry_url := Some "https://a.example/my_scraper/x"; entry_selectors := None |};
      {| entry_url := Some "not a url"; entry_selectors := None |} ] in
  match @main Sample.settings (Sample.world Delivered) elements entries [] with
  | MainFinished c _ =>
      NoDup (requested c)
      /\ forall u, u ∈ requested c ->
           (exists entry, entry ∈ entries /\ entry_url entry = Some u)
           /\ @passes Sample.settings (Sample.world Delivered) u = true
  | _ => False
  end.
Proof.
  intros entries.
  destruct (@main Sample.settings (Sample.world Delivered) elements entries [])
    as [e | code output | c output] eqn:E.
  - vm_compute in E. discriminate E.
  - vm_compute in E. discriminate E.
  - apply (@main_requests_admitted_only Sample.settings (Sample.world Delivered)
             elements entries [] c output); [|exact E].
    intros valid_set. reflexivity.
Defined.

Lemma main_entry_without_url_witness :
  @main Sample.settings (Sample.world Delivered) elements
        [ {| entry_url := Some Sample.site; entry_selectors := Some Sample.site_selectors |};
          {| entry_url := None; entry_selectors := None |} ] []
  = MainRaised "KeyError".
Proof.
  apply (@main_entry_without_url Sample.settings (Sample.world Delivered) elements
           _ [] {| entry_url := None; entry_selectors := None |}).
  - apply list_elem_of_In. right. left. reflexivity.
  - reflexivity.
Defined.

(** The sample main block stores the listing of the sample site. *)
Example main_sample_run :
  match @main Sample.settings (Sample.world Delivered) elements
          [ {| entry_url := Some Sample.site;
               entry_selectors := Some Sample.site_selectors |} ] [] with
  | MainFinished c output =>
      requested c = [Sample.site]
      /\ output = [ValidUrlsAndPriceRange [Sample.site]; FetchingAllListings;
                   TotalListingsFetched 1; Printed Sample.nice_flat;
                   NewListingsDetected; NewListingFound Sample.nice_flat;
                   DatabaseConnectionClosed]
  | _ => False
  end.
Proof. vm_compute. split; reflexivity. Qed.

(** ** Loading and validating the configuration *)

Section StartupProperties.

Import Startup.

Lemma bind_returned {A B : Type} (x : outcome A) (f : A -> outcome B) (b : B) :
  bind x f = Returned b -> exists a, x = Returned a /\ f a = Returned b.
Proof. destruct x as [a|e]; simpl; [eauto | discriminate]. Qed.

(** A subscript that returns found the key in a dictionary. *)
Lemma subscript_contains (config : json) (key : string) (v : json) :
  subscript config key = Returned v -> contains config key = Returned true.
Proof.
  destruct config as [| | | | | |items]; try discriminate. unfold subscript, contains.
  destruct (items !! key) as [w|]; [|discriminate].
  intros _. reflexivity.
Qed.

(** When the settings are extracted, no required key is missing. *)
Lemma extract_settings_required (config : json) x :
  extract_settings config = Returned x ->
  first_missing config required_keys = Returned None.
Proof.
  unfold extract_settings. intros Hx.
  repeat match goal with
    | H : bind _ _ = Returned _ |- _ =>
        let a := fresh "a" in
        let Ha := fresh "Ha" in
        apply bind_returned in H as (a & Ha & H)
    end.
  unfold required_keys. cbn [first_missing].
  repeat match goal with
    | H : subscript config _ = Returned _ |- _ =>
        apply subscript_contains in H; rewrite ?H; clear H
    end.
  reflexivity.
Qed.

Lemma load_config_log (file : config_file) (key : string) :
  MissingRequiredKey key ∉ snd (load_config file).
Proof.
  destruct file; simpl; intros Hin;
    repeat (apply elem_of_cons in Hin as [Hin | Hin]; [discriminate Hin|]);
    apply elem_of_nil in Hin; exact Hin.
Qed.

Lemma first_missing_none (items : gmap string json) (keys : list string) :
  first_missing (JDict items) keys = Returned None ->
  forall key, key ∈ keys -> is_Some (items !! key).
Proof.
  induction keys as [|k keys IH]; cbn [first_missing contains].
  - intros _ key Hin. apply elem_of_nil in Hin. contradiction.
  - destruct (bool_decide (is_Some (items !! k))) eqn:E; [|discriminate].
    apply bool_decide_eq_true in E.
    intros Hrest key Hin. apply elem_of_cons in Hin as [-> | Hin]; [exact E|].
    exact (IH Hrest key Hin).
Qed.

Lemma startup_log_no_missing_key
    (ge : json -> json -> outcome bool) (file : config_file) (key : string) :
  MissingRequiredKey key ∉ snd (startup ge file).
Proof.
  unfold startup.
  destruct (load_config file) as [[config|e] log] eqn:Hload.
  - assert (Hlog : MissingRequiredKey key ∉ log).
    { pose proof (load_config_log file key) as Hl. rewrite Hload in Hl. exact Hl. }
    destruct (extract_settings config) as [[[[[[[[? ?] ?] ?] search_config] ?] ?] ?]|e] eqn:Hx;
      [|exact Hlog].
    rewrite (extract_settings_required config _ Hx).
    assert (Hlog' : forall r, r <> MissingRequiredKey key ->
              MissingRequiredKey key ∉ ((log ++ [ValidatingConfiguration]) ++ [r])%list).
    { intros r Hr Hin. rewrite !elem_of_app, !list_elem_of_singleton in Hin.
      destruct Hin as [[Hin | Hin] | Hin]; [exact (Hlog Hin) | discriminate Hin | congruence]. }
    assert (Hlog'' : MissingRequiredKey key ∉ (log ++ [ValidatingConfiguration])%list).
    { intros Hin. rewrite elem_of_app, list_elem_of_singleton in Hin.
      destruct Hin as [Hin | Hin]; [exact (Hlog Hin) | discriminate Hin]. }
    destruct (bind (subscript search_config "price_range") _) as [min|?]; [|exact Hlog''].
    destruct (bind (subscript search_config "price_range") _) as [max|?]; [|exact Hlog''].
    destruct (ge min max) as [[|]|?]; [| |exact Hlog'']; apply Hlog'; discriminate.
  - pose proof (load_config_log file key) as Hl. rewrite Hload in Hl. exact Hl.
Qed.

(** X20. The test for a missing required key never fires: whatever
    [config.json] holds, loading the module never logs a missing key and
    never exits for one. A configuration that lacks a required key makes the
    statements before the test raise instead, before anything is
    validated. *)
Theorem startup_never_reports_missing_key
    (ge : json -> json -> outcome bool) :
  (forall file key, MissingRequiredKey key ∉ snd (startup ge file))
  /\ (forall items key,
        key ∈ required_keys -> items !! key = None ->
        exists e,
          startup ge (Parsed (JDict items))
          = (StartupRaised e, [LoadingConfiguration; ConfigurationLoaded])).
Proof.
  split; [intros file key; apply startup_log_no_missing_key|].
  intros items key Hkey Hnone. unfold startup. cbn [load_config].
  destruct (extract_settings (JDict items)) as [x|e] eqn:Hx; [|eauto].
  apply extract_settings_required in Hx.
  destruct (first_missing_none items required_keys Hx key Hkey) as [v Hv].
  congruence.
Qed.

(** X21. The fall-back on the defaults does not start the scraper: when
    [config.json] is missing or is not valid JSON, [load_config] logs that
    it uses the defaults, and the module then raises a [KeyError], since the
    defaults hold no selectors (and no URLs). *)
Theorem startup_on_defaults_raises
    (ge : json -> json -> outcome bool) (file : config_file) :
  file = FileNotFoundError \/ file = JSONDecodeError ->
  startup ge file
  = (StartupRaised "KeyError", [LoadingConfiguration; ConfigurationFileError]).
Proof. intros [-> | ->]; reflexivity. Qed.

(** X22. A module that starts with integer bounds has [min_price] strictly
    below [max_price]. *)
Theorem startup_orders_price_range
    (ge : json -> json -> outcome bool) (file : config_file)
    (g : globals) (log : list startup_record) (a b : Z) :
  (forall x y, ge (JInt x) (JInt y) = Returned (y <=? x)%Z) ->
  startup ge file = (Started g, log) ->
  min_price g = JInt a -> max_price g = JInt b ->
  (a < b)%Z.
Proof.
  intros Hge. unfold startup.
  destruct (load_config file) as [[config|e] log0]; [|discriminate].
  destruct (extract_settings config) as [[[[[[[[? ?] ?] ?] search_config] ?] ?] ?]|e];
    [|discriminate].
  destruct (first_missing config required_keys) as [[key|]|e]; try discriminate.
  destruct (bind (subscript search_config "price_range") _) as [min|?]; [|discriminate].
  destruct (bind (subscript search_config "price_range") _) as [max|?]; [|discriminate].
  destruct (ge min max) as [[|]|?] eqn:E; try discriminate.
  intros [= <- _]. simpl. intros -> ->.
  rewrite Hge in E. injection E as E. apply Z.leb_gt in E. exact E.
Qed.

End StartupProperties.

Lemma startup_on_defaults_raises_witness :
  Startup.startup Startup.ge_int Startup.FileNotFoundError
  = (Startup.StartupRaised "KeyError",
     [Startup.LoadingConfiguration; Startup.ConfigurationFileError]).
Proof.
  apply (startup_on_defaults_raises Startup.ge_int Startup.FileNotFoundError).
  left. reflexivity.
Defined.

Lemma startup_orders_price_range_witness :
  match Startup.startup Startup.ge_int (Startup.Parsed Startup.sample_config) with
  | (Startup.Started g, _) =>
      Startup.min_price g = Startup.JInt 1000
      /\ Startup.max_price g = Startup.JInt 2000
      /\ (1000 < 2000)%Z
  | _ => False
  end.
Proof.
  destruct (Startup.startup Startup.ge_int (Startup.Parsed Startup.sample_config))
    as [[g | e | code] log] eqn:E.
  - assert (Hmin : Startup.min_price g = Startup.JInt 1000)
      by (vm_compute in E; injection E as <- _; reflexivity).
    assert (Hmax : Startup.max_price g = Startup.JInt 2000)
      by (vm_compute in E; injection E as <- _; reflexivity).
    split; [exact Hmin|]. split; [exact Hmax|].
    apply (startup_orders_price_range Startup.ge_int
             (Startup.Parsed Startup.sample_config) g log 1000 2000);
      [intros x y; reflexivity | exact E | exact Hmin | exact Hmax].
  - vm_compute in E. discriminate E.
  - vm_compute in E. discriminate E.
Defined.

(** ** Robots rules and the scheme *)

Lemma startswith_app_false (s p q : string) :
  Text.startswith s p = false -> Text.startswith s (p ++ q) = false.
Proof.
  revert s. induction p as [|b p IH]; intros [|a s]; simpl; try discriminate;
    [reflexivity|].
  destruct (Ascii.eqb a b); simpl; [apply IH | reflexivity].
Qed.

Lemma disallowed_needs_https (url domain : string) (paths : list string) :
  Text.startswith url "https://" = false -> disallowed url domain paths = false.
Proof.
  intros Hs. unfold disallowed.
  induction paths as [|path paths IH]; simpl; [reflexivity|].
  rewrite (startswith_app_false url "https://" (domain ++ path) Hs). exact IH.
Qed.

(** X17. Robots rules bind only the URLs that start with [https://] in
    lower case: any other URL that matches the pattern (scheme http, or
    https written with a capital) and whose host serves a robots file
    passes, whatever the file disallows. *)
Theorem robots_rules_need_lowercase_https
    `{Settings} `{World} (url domain text : string) :
  Text.startswith url "https://" = false ->
  url_pattern_match url = true ->
  urlparse_netloc url = Some domain ->
  requests_get ("https://" ++ domain ++ "/robots.txt") = HttpResponse 200 text ->
  passes url = true.
Proof.
  intros Hs Hm Hn Hget. unfold passes.
  rewrite Hm, Hn, Hget, (disallowed_needs_https url domain _ Hs). reflexivity.
Qed.

Lemma robots_rules_need_lowercase_https_witness :
  @path_disallowed Sample.settings Sample.robots_txt "/my_scraper/x" = true
  /\ @passes Sample.settings (Sample.world Delivered)
             "HTTPS://a.example/my_scraper/x" = true.
Proof.
  split; [reflexivity|].
  apply (@robots_rules_need_lowercase_https Sample.settings (Sample.world Delivered)
           "HTTPS://a.example/my_scraper/x" "a.example" Sample.robots_txt);
    reflexivity.
Defined.

(** ** The text of an element *)

Lemma code_is_other (n m : N) (c : ascii) :
  n <> m -> Text.code_is n c = true -> Text.code_is m c = false.
Proof.
  unfold Text.code_is. intros Hnm Hn%N.eqb_eq. apply N.eqb_neq. congruence.
Qed.

Lemma tag_end_sub_tags (r : string) :
  Text.tag_end r = None -> Text.tag_end (Text.sub_tags 0 r) = None.
Proof.
  induction r as [|c r IH]; [reflexivity|].
  cbn [Text.tag_end Text.sub_tags].
  destruct (Text.code_is 62 c) eqn:Egt; [discriminate|].
  destruct (Text.code_is 10 c) eqn:Enl.
  - intros _. rewrite (code_is_other 10 60 c ltac:(discriminate) Enl).
    cbn [Text.tag_end]. rewrite Egt, Enl. reflexivity.
  - intros Hr. destruct (Text.tag_end r) as [k|] eqn:Er; [discriminate|].
    specialize (IH eq_refl).
    destruct (Text.code_is 60 c); cbn [Text.tag_end]; rewrite Egt, Enl, IH; reflexivity.
Qed.

Lemma sub_tags_tag_free (s : string) : forall k, tag_free (Text.sub_tags k s) = true.
Proof.
  induction s as [|c s IH]; intros k; [reflexivity|].
  cbn [Text.sub_tags]. destruct k as [|k]; [|apply IH].
  destruct (Text.code_is 60 c) eqn:Elt.
  - destruct (Text.tag_end s) as [k|] eqn:Es; [apply IH|].
    cbn [tag_free]. rewrite Elt, (tag_end_sub_tags s Es), IH. reflexivity.
  - cbn [tag_free]. rewrite Elt, IH. reflexivity.
Qed.

Lemma tag_free_lstrip (s : string) :
  tag_free s = true -> tag_free (Text.lstrip s) = true.
Proof.
  induction s as [|c s IH]; [reflexivity|].
  cbn [Text.lstrip]. destruct (Text.isspace c); [|auto].
  cbn [tag_free]. intros [_ Hs]%andb_true_iff. exact (IH Hs).
Qed.

Lemma tag_end_rstrip (r : string) :
  Text.tag_end r = None -> Text.tag_end (Text.rstrip r) = None.
Proof.
  induction r as [|c r IH]; [reflexivity|].
  cbn [Text.tag_end Text.rstrip].
  destruct (Text.code_is 62 c) eqn:Egt; [discriminate|].
  destruct (Text.code_is 10 c) eqn:Enl.
  - intros _. destruct (Text.rstrip r); [destruct (Text.isspace c)|];
      cbn [Text.tag_end]; rewrite ?Egt, ?Enl; reflexivity.
  - intros Hr. destruct (Text.tag_end r) as [k|]; [discriminate|].
    specialize (IH eq_refl).
    destruct (Text.rstrip r) as [|d x]; [destruct (Text.isspace c)|];
      cbn [Text.tag_end]; rewrite ?Egt, ?Enl; try reflexivity.
    cbn [Text.tag_end] in IH. rewrite IH. reflexivity.
Qed.

Lemma tag_free_rstrip (s : string) :
  tag_free s = true -> tag_free (Text.rstrip s) = true.
Proof.
  induction s as [|c s IH]; [reflexivity|].
  cbn [tag_free Text.rstrip]. intros [Hc Hs]%andb_true_iff. specialize (IH Hs).
  pose proof (tag_end_rstrip s) as Hend.
  destruct (Text.rstrip s) as [|d x].
  - destruct (Text.isspace c); [reflexivity|].
    cbn [tag_free Text.tag_end]. destruct (Text.code_is 60 c); reflexivity.
  - cbn [tag_free] in *. rewrite IH, andb_true_r.
    destruct (Text.code_is 60 c); [|reflexivity].
    destruct (Text.tag_end s); [discriminate|]. rewrite (Hend eq_refl). reflexivity.
Qed.

Lemma tag_free_fixed (s : string) : tag_free s = true -> Text.sub_tags 0 s = s.
Proof.
  induction s as [|c s IH]; [reflexivity|].
  cbn [tag_free Text.sub_tags]. intros [Hc Hs]%andb_true_iff.
  rewrite (IH Hs).
  destruct (Text.code_is 60 c); [|reflexivity].
  destruct (Text.tag_end s); [discriminate|reflexivity].
Qed.

(** X23. The text [parse] reads from an element holds no tag: in the
    title and the price text, whatever the HTML of the element, no [<] is
    followed on its line by a [>], and removing tags once more changes
    nothing. (The fall-back texts hold no tag either.) *)
Theorem element_text_has_no_tag (element : option string) (fallback : string) :
  tag_free fallback = true ->
  tag_free (element_text element fallback) = true
  /\ Text.strip_tags (element_text element fallback) = element_text element fallback.
Proof.
  intros Hf.
  assert (Hfree : tag_free (element_text element fallback) = true).
  { unfold element_text. destruct element as [e|]; [|exact Hf].
    destruct (Text.truthy e); [|exact Hf].
    unfold Text.strip, Text.strip_tags.
    apply tag_free_rstrip, tag_free_lstrip, sub_tags_tag_free. }
  split; [exact Hfree|]. apply tag_free_fixed. exact Hfree.
Qed.

Lemma element_text_has_no_tag_witness :
  tag_free (element_text (Some "<h2 class=t>Nice <b>Flat</b></h2> <i>new") "No title found")
  = true
  /\ Text.strip_tags
       (element_text (Some "<h2 class=t>Nice <b>Flat</b></h2> <i>new") "No title found")
     = element_text (Some "<h2 class=t>Nice <b>Flat</b></h2> <i>new") "No title found".
Proof.
  apply (element_text_has_no_tag
           (Some "<h2 class=t>Nice <b>Flat</b></h2> <i>new") "No title found").
  reflexivity.
Defined.


(* ===================================================================== *)
(** * The run with the exceptions of the callback and the filter          *)
(* ===================================================================== *)

Section Runs.

Context {settings : Settings} {world : World} {faults : Faults}.

Implicit Types (self : Pavouk) (r : Run) (response : Response).

(** ** The callback *)

(** The loop stops at the first node on which its body raises. *)
Lemma parse_nodes_first_raise (response_url : string) (sel : selector_set)
    (nodes : list Selector) : forall acc,
  snd (parse_nodes response_url sel nodes acc)
  = first_raise response_url sel nodes.
Proof.
  induction nodes as [|node nodes IH]; intros acc; simpl; [reflexivity|].
  destruct (listing_raises response_url sel node) as [[e log_node]|].
  - destruct acc as [[db n] log]. reflexivity.
  - apply IH.
Qed.

(** The store when the loop stops: the store before it with the offers of
    the nodes it went through, which are all the offers of the page when
    nothing is raised. *)
Lemma parse_nodes_store (response_url : string) (sel : selector_set)
    (nodes : list Selector) : forall db n log,
  exists done,
    done `prefix_of` omap (offered_listing response_url sel) nodes
    /\ (parse_nodes response_url sel nodes (db, n, log)).1.1.1
       = insert_all db done
    /\ (first_raise response_url sel nodes = None ->
        done = omap (offered_listing response_url sel) nodes).
Proof.
  induction nodes as [|node nodes IH]; intros db n log.
  - exists []. repeat split. apply prefix_nil.
  - cbn [parse_nodes first_raise].
    destruct (listing_raises response_url sel node) as [[e log_node]|].
    + exists []. split; [apply prefix_nil|]. split; [reflexivity|discriminate].
    + pose proof (parse_listing_store response_url sel db n log node) as Hstep.
      destruct (parse_listing response_url sel (db, n, log) node)
        as [[db1 n1] log1].
      destruct (IH db1 n1 log1) as (done & Hprefix & Hstore & Hall).
      simpl in Hstep. subst db1. cbn [omap list_omap].
      destruct (offered_listing response_url sel node) as [[[t l] p]|].
      * exists ((t, l, p) :: done).
        split; [apply prefix_cons; exact Hprefix|].
        split; [exact Hstore|]. intros Hnone. rewrite (Hall Hnone). reflexivity.
      * exists done. auto.
Qed.

(** [parse] with its exceptions, by what the page raises in the loop. *)
Lemma parse_checked_cases self response :
  match page_raises (selectors self) response with
  | Some e =>
      exists db log done,
        parse_checked self response
        = ParseRaised e {| urls := urls self; db_manager := db;
                           selectors := selectors self;
                           current_url_index := current_url_index self |} log
        /\ done `prefix_of` offered_listings (selectors self) response
        /\ db = insert_all (db_manager self) done
  | None =>
      parse_checked self response
      = let '(self', requests, log) := parse self response in
        match make_request_raises self' with
        | Some e => ParseRaised e self' log
        | None => Parsed self' requests log
        end
  end.
Proof.
  unfold parse_checked, page_raises, offered_listings.
  destruct (selectors self !! url response) as [sel|]; [|reflexivity].
  destruct (css_raises response (listing_item sel)) as [e|].
  - exists (db_manager self), [ParsingResponse (url response) (status response)], [].
    split; [reflexivity|]. split; [apply prefix_nil | reflexivity].
  - pose proof (parse_nodes_first_raise (url response) sel
                  (css response (listing_item sel))
                  (db_manager self, 0%nat,
                   [NumberOfListingsFound (length (css response (listing_item sel)))]))
      as Hfirst.
    destruct (parse_nodes_store (url response) sel
                (css response (listing_item sel)) (db_manager self) 0
                [NumberOfListingsFound (length (css response (listing_item sel)))])
      as (done & Hprefix & Hstore & _).
    destruct (parse_nodes _ _ _ _) as [[[db n] log] raised].
    simpl in Hfirst, Hstore. subst raised db.
    destruct (first_raise _ _ _) as [e|]; [|reflexivity].
    eexists _, _, done. split; [reflexivity|]. split; [exact Hprefix | reflexivity].
Qed.

(** ** The scheduler *)

Lemma fingerprints_snoc (l : list string) (u : string) :
  fingerprints (l ++ [u]) = {[request_fingerprint u]} ∪ fingerprints l.
Proof.
  unfold fingerprints. rewrite fmap_app, list_to_set_app_L. simpl.
  rewrite (right_id_L ∅ (∪)). apply (comm_L (∪)).
Qed.

(** Among URLs with distinct fingerprints, the fingerprint of a URL is
    not one of the URLs before it. *)
Lemma fingerprint_fresh (l : list string) (m j : nat) (u : string) :
  NoDup (request_fingerprint <$> take m l) ->
  (j < m)%nat -> l !! j = Some u ->
  request_fingerprint u ∉ fingerprints (take j l).
Proof.
  intros Hnodup Hj Hu Hin.
  unfold fingerprints in Hin. apply elem_of_list_to_set in Hin.
  assert (Hu' : take m l !! j = Some u) by (rewrite lookup_take_lt; assumption).
  rewrite <- (take_drop_middle _ _ _ Hu'), fmap_app in Hnodup.
  apply NoDup_app in Hnodup as (_ & Hfresh & _).
  rewrite take_take, Nat.min_l in Hfresh by lia.
  apply (Hfresh _ Hin). simpl. apply list_elem_of_here.
Qed.

(** ** The steps of a run *)

Lemma run_step_nothing_pending r : pending (crawl_state r) = [] -> run_step r = None.
Proof. intros Hp. unfold run_step. rewrite Hp. reflexivity. Qed.

Lemma run_steps_stopped n r : run_step r = None -> run_steps n r = r.
Proof. intros Hstop. destruct n; simpl; [|rewrite Hstop]; reflexivity. Qed.

Lemma run_steps_add n m r : run_steps (n + m) r = run_steps m (run_steps n r).
Proof.
  revert r. induction n as [|n IH]; intros r; simpl; [reflexivity|].
  destruct (run_step r) as [r'|] eqn:E; [apply IH|].
  symmetry. apply run_steps_stopped. exact E.
Qed.

Lemma run_start_spider self : spider (crawl_state (run_start self)) = self.
Proof.
  unfold run_start, start_requests.
  destruct (make_request self) as [request log].
  destruct (make_request_raises self); [reflexivity|].
  destruct (enqueue _ _). reflexivity.
Qed.

(** The run of a spider whose first request is built is under way at the
    first URL. *)
Lemma run_start_under_way self u :
  current_url_index self = 0%nat ->
  urls self !! 0%nat = Some u ->
  Request_raises u = None ->
  under_way (run_start self).
Proof.
  intros Hidx Hu Hreq.
  assert (Hmake : fst (make_request self) = Some {| request_url := u |})
    by (rewrite make_request_lookup, Hidx, Hu; reflexivity).
  unfold under_way, run_start, start_requests, make_request_raises.
  destruct (make_request self) as [request log]. simpl in Hmake. subst request.
  cbn [fst yielded request_url]. rewrite Hreq. cbn [enqueue request_url].
  destruct (decide (request_fingerprint u ∈ (∅ : gset string))) as [Hin|_];
    [exfalso; exact (not_elem_of_empty _ Hin)|].
  cbn [crawl_state spider pending requested seen]. rewrite Hidx.
  exists u. split; [exact Hu|]. split; [reflexivity|]. split; [reflexivity|].
  rewrite (take_S_r _ _ _ Hu). reflexivity.
Qed.

(** A step on a site whose download fails. *)
Lemma run_step_failed r u reason :
  under_way r ->
  urls (spider (crawl_state r)) !! current_url_index (spider (crawl_state r)) = Some u ->
  download u = DownloadFailed reason ->
  run_step r
  = Some {| crawl_state :=
              {| spider := spider (crawl_state r); pending := [];
                 requested := take (S (current_url_index (spider (crawl_state r))))
                                   (urls (spider (crawl_state r)));
                 crawl_log := crawl_log (crawl_state r) |};
            seen := seen r |}.
Proof.
  intros (u' & Hu' & Hpending & Hrequested & _) Hu Hdl.
  assert (u' = u) as -> by congruence.
  unfold run_step. rewrite Hpending. cbn [request_url]. rewrite Hdl.
  rewrite Hrequested, (take_S_r _ _ _ Hu). reflexivity.
Qed.

(** A step on a page in whose loop [parse] raises: the cursor stays, and
    nothing is pending any more. *)
Lemma run_step_raised r u response e :
  under_way r ->
  urls (spider (crawl_state r)) !! current_url_index (spider (crawl_state r)) = Some u ->
  download u = Downloaded response ->
  page_raises (selectors (spider (crawl_state r))) response = Some e ->
  exists r',
    run_step r = Some r'
    /\ urls (spider (crawl_state r')) = urls (spider (crawl_state r))
    /\ selectors (spider (crawl_state r')) = selectors (spider (crawl_state r))
    /\ current_url_index (spider (crawl_state r'))
       = current_url_index (spider (crawl_state r))
    /\ pending (crawl_state r') = []
    /\ requested (crawl_state r')
       = take (S (current_url_index (spider (crawl_state r))))
              (urls (spider (crawl_state r))).
Proof.
  intros (u' & Hu' & Hpending & Hrequested & _) Hu Hdl Hraise.
  assert (u' = u) as -> by congruence.
  pose proof (parse_checked_cases (spider (crawl_state r)) response) as Hcases.
  rewrite Hraise in Hcases. destruct Hcases as (db & log & done & Hparse & _).
  unfold run_step. rewrite Hpending. cbn [request_url]. rewrite Hdl, Hparse.
  eexists. split; [reflexivity|]. cbn [crawl_state spider pending requested urls
                                        selectors current_url_index].
  repeat split. rewrite Hrequested, (take_S_r _ _ _ Hu). reflexivity.
Qed.

(** A step on a page that is served: the spider is the one [parse]
    leaves; the run is under way at the next URL when there is one, its
    request is built and its fingerprint is new, and nothing is pending
    otherwise. *)
Lemma run_step_served r u response :
  under_way r ->
  urls (spider (crawl_state r)) !! current_url_index (spider (crawl_state r)) = Some u ->
  download u = Downloaded response ->
  page_raises (selectors (spider (crawl_state r))) response = None ->
  let self := spider (crawl_state r) in
  let i := current_url_index self in
  exists r',
    run_step r = Some r'
    /\ spider (crawl_state r') = (parse self response).1.1
    /\ crawl_log (crawl_state r')
       = (crawl_log (crawl_state r) ++ (parse self response).2)%list
    /\ requested (crawl_state r') = take (S i) (urls self)
    /\ match urls self !! S i with
       | Some next_url =>
           (Request_raises next_url = None
            /\ (request_fingerprint next_url ∉ fingerprints (take (S i) (urls self)))
            /\ under_way r')
           \/ (((exists e, Request_raises next_url = Some e)
                \/ request_fingerprint next_url ∈ fingerprints (take (S i) (urls self)))
               /\ pending (crawl_state r') = [])
       | None => pending (crawl_state r') = []
       end.
Proof.
  intros (u' & Hu' & Hpending & Hrequested & Hseen) Hu Hdl Hclean self i.
  assert (u' = u) as -> by congruence.
  fold self in Hu, Hrequested, Hseen. fold i in Hu, Hrequested, Hseen.
  pose proof (parse_checked_cases self response) as Hcases.
  fold self in Hclean. rewrite Hclean in Hcases.
  pose proof (parse_advances self response) as Hadv.
  unfold run_step. rewrite Hpending. cbn [request_url]. rewrite Hdl.
  fold self. rewrite Hcases.
  destruct (parse self response) as [[self' requests] log].
  destruct Hadv as (Hurls & Hsels & Hidx & Hreq).
  assert (Htake : (requested (crawl_state r) ++ [u])%list = take (S i) (urls self)).
  { rewrite Hrequested. symmetry. apply take_S_r. exact Hu. }
  unfold make_request_raises. rewrite Hreq, make_request_lookup, Hurls, Hidx.
  fold i.
  destruct (urls self !! S i) as [next_url|] eqn:Hnext; cbn [fmap option_fmap option_map fst yielded request_url].
  - destruct (Request_raises next_url) as [e|] eqn:Hbuilt.
    + eexists. split; [reflexivity|].
      cbn [crawl_state spider pending requested crawl_log fst snd].
      repeat split; try assumption.
      right. split; [left; exists e; reflexivity | reflexivity].
    + cbn [enqueue request_url].
      destruct (decide (request_fingerprint next_url ∈ seen r)) as [Hin|Hnotin].
      * eexists. split; [reflexivity|].
        cbn [crawl_state spider pending requested crawl_log fst snd].
        repeat split; try assumption.
        right. split; [right; rewrite <- Hseen; exact Hin | reflexivity].
      * eexists. split; [reflexivity|].
        cbn [crawl_state spider pending requested crawl_log fst snd].
        repeat split; try assumption.
        left. split; [reflexivity|]. split; [rewrite <- Hseen; exact Hnotin|].
        unfold under_way.
        cbn [crawl_state spider pending requested seen].
        rewrite Hurls, Hidx. exists next_url.
        split; [exact Hnext|]. split; [reflexivity|]. split; [exact Htake|].
        fold i. rewrite (take_S_r _ (S i) _ Hnext), fingerprints_snoc, Hseen.
        reflexivity.
  - cbn [enqueue]. eexists. split; [reflexivity|].
    cbn [crawl_state spider pending requested crawl_log fst snd].
    repeat split; assumption.
Qed.

(** [k] steps over [k] sites that are served, each followed by a site
    whose request is built and has a new fingerprint. *)
Lemma run_steps_served (k : nat) : forall r,
  under_way r ->
  (current_url_index (spider (crawl_state r)) + k
   <= length (urls (spider (crawl_state r))))%nat ->
  (forall j u,
     (current_url_index (spider (crawl_state r)) <= j
      < current_url_index (spider (crawl_state r)) + k)%nat ->
     urls (spider (crawl_state r)) !! j = Some u ->
     served (selectors (spider (crawl_state r))) u) ->
  (forall j u,
     (current_url_index (spider (crawl_state r)) < j
      <= current_url_index (spider (crawl_state r)) + k)%nat ->
     urls (spider (crawl_state r)) !! j = Some u ->
     Request_raises u = None
     /\ (request_fingerprint u
         ∉ fingerprints (take j (urls (spider (crawl_state r)))))) ->
  urls (spider (crawl_state (run_steps k r))) = urls (spider (crawl_state r))
  /\ selectors (spider (crawl_state (run_steps k r)))
     = selectors (spider (crawl_state r))
  /\ current_url_index (spider (crawl_state (run_steps k r)))
     = (current_url_index (spider (crawl_state r)) + k)%nat
  /\ requested (crawl_state (run_steps k r))
     = take (current_url_index (spider (crawl_state r)) + k)
            (urls (spider (crawl_state r)))
  /\ (((current_url_index (spider (crawl_state r)) + k
        < length (urls (spider (crawl_state r))))%nat
       /\ under_way (run_steps k r))
      \/ ((current_url_index (spider (crawl_state r)) + k)%nat
          = length (urls (spider (crawl_state r)))
          /\ pending (crawl_state (run_steps k r)) = [])).
Proof.
  induction k as [|k IH]; intros r Hway Hlen Hserved Hnext.
  - cbn [run_steps]. rewrite Nat.add_0_r.
    pose proof Hway as (u & Hu & _ & Hreq & _).
    split; [reflexivity|]. split; [reflexivity|]. split; [reflexivity|].
    split; [exact Hreq|]. left. split; [|exact Hway].
    apply lookup_lt_Some in Hu. exact Hu.
  - pose proof Hway as (u & Hu & _).
    destruct (Hserved _ u ltac:(split; [reflexivity | lia]) Hu)
      as (response & Hdl & Hclean).
    destruct (run_step_served r u response Hway Hu Hdl Hclean)
      as (r1 & Hstep & Hspider & _ & Hreq1 & Hcase).
    pose proof (parse_advances (spider (crawl_state r)) response) as Hadv.
    destruct (parse (spider (crawl_state r)) response) as [[self' requests] log].
    cbn [fst] in Hspider. subst self'.
    destruct Hadv as (Hurls & Hsels & Hidx & _).
    cbn [run_steps]. rewrite Hstep.
    destruct (urls (spider (crawl_state r))
                !! S (current_url_index (spider (crawl_state r))))
      as [next_url|] eqn:Hn.
    + destruct Hcase as [(_ & _ & Hway1) | (Hbad & _)].
      * destruct (IH r1 Hway1) as (Hu1 & Hs1 & Hi1 & Hr1 & Hend1).
        { rewrite Hidx, Hurls. lia. }
        { rewrite Hidx, Hurls, Hsels. intros j v Hj Hv.
          apply (Hserved j v); [lia | exact Hv]. }
        { rewrite Hidx, Hurls. intros j v Hj Hv.
          apply (Hnext j v); [lia | exact Hv]. }
        rewrite Hidx, Hurls in *. rewrite Hsels in Hs1.
        replace (current_url_index (spider (crawl_state r)) + S k)%nat
          with (S (current_url_index (spider (crawl_state r))) + k)%nat by lia.
        auto.
      * exfalso.
        destruct (Hnext _ next_url ltac:(split; [apply Nat.lt_succ_diag_r | lia]) Hn)
          as [Hbuilt Hfresh].
        destruct Hbad as [[e He] | Hin]; [congruence | exact (Hfresh Hin)].
    + apply lookup_ge_None in Hn.
      assert (k = 0)%nat as -> by lia.
      cbn [run_steps]. rewrite Hurls, Hsels, Hidx, Hreq1.
      replace (current_url_index (spider (crawl_state r)) + 1)%nat
        with (S (current_url_index (spider (crawl_state r)))) by lia.
      split; [reflexivity|]. split; [reflexivity|]. split; [reflexivity|].
      split; [reflexivity|]. right. split; [lia | exact Hcase].
Qed.

Lemma NoDup_fingerprints_take (l : list string) (n : nat) :
  NoDup (request_fingerprint <$> l) -> NoDup (request_fingerprint <$> take n l).
Proof.
  intros Hnodup. rewrite fmap_take.
  eapply sublist_NoDup; [exact Hnodup | apply sublist_take].
Qed.

(** The first [k] steps of a run over sites that are served, with
    requests that are built and have distinct fingerprints. *)
Lemma run_served_prefix
    (urls0 : list string) (db : DatabaseManager)
    (sels : gmap string selector_set) (k : nat) :
  (k <= length urls0)%nat ->
  NoDup (request_fingerprint <$> take (S k) urls0) ->
  (forall j u, (j <= k)%nat -> urls0 !! j = Some u -> Request_raises u = None) ->
  (forall j u, (j < k)%nat -> urls0 !! j = Some u -> served sels u) ->
  urls (spider (crawl_state (run_steps k (run_start (Pavouk_init urls0 db sels)))))
  = urls0
  /\ selectors (spider (crawl_state
                          (run_steps k (run_start (Pavouk_init urls0 db sels)))))
     = sels
  /\ current_url_index
       (spider (crawl_state (run_steps k (run_start (Pavouk_init urls0 db sels)))))
     = k
  /\ requested (crawl_state (run_steps k (run_start (Pavouk_init urls0 db sels))))
     = take k urls0
  /\ (((k < length urls0)%nat
       /\ under_way (run_steps k (run_start (Pavouk_init urls0 db sels))))
      \/ (k = length urls0
          /\ pending (crawl_state
                        (run_steps k (run_start (Pavouk_init urls0 db sels))))
             = [])).
Proof.
  intros Hk Hnodup Hbuilt Hserved.
  destruct urls0 as [|u0 rest].
  - assert (k = 0)%nat as -> by (simpl in Hk; lia).
    cbn. split; [reflexivity|]. split; [reflexivity|]. split; [reflexivity|].
    split; [reflexivity|]. right. split; reflexivity.
  - pose proof (run_start_spider (Pavouk_init (u0 :: rest) db sels)) as Hstart.
    assert (Hway : under_way (run_start (Pavouk_init (u0 :: rest) db sels))).
    { apply (run_start_under_way _ u0); [reflexivity | reflexivity |].
      apply (Hbuilt 0%nat); [lia | reflexivity]. }
    pose proof (run_steps_served k (run_start (Pavouk_init (u0 :: rest) db sels)) Hway)
      as Hrun.
    rewrite Hstart in Hrun. cbn [Pavouk_init urls selectors current_url_index] in Hrun.
    apply Hrun.
    + exact Hk.
    + intros j u Hj Hu. apply (Hserved j u); [lia | exact Hu].
    + intros j u Hj Hu. split; [apply (Hbuilt j u); [lia | exact Hu]|].
      apply (fingerprint_fresh _ (S k) j u); [exact Hnodup | lia | exact Hu].
Qed.

(** How a run that is under way ends, given steps enough to reach the end
    of the list. *)
Lemma run_steps_ends (n : nat) : forall r,
  under_way r ->
  (length (urls (spider (crawl_state r)))
   <= current_url_index (spider (crawl_state r)) + n)%nat ->
  (forall j u, (j < current_url_index (spider (crawl_state r)))%nat ->
     urls (spider (crawl_state r)) !! j = Some u ->
     served (selectors (spider (crawl_state r))) u) ->
  ended (urls (spider (crawl_state r))) (selectors (spider (crawl_state r)))
        (run_steps n r).
Proof.
  induction n as [|n IH]; intros r Hway Hn Hbefore.
  - destruct Hway as (u & Hu & _). apply lookup_lt_Some in Hu. lia.
  - pose proof Hway as (u & Hu & _).
    cbn [run_steps].
    destruct (download u) as [response|reason] eqn:Hdl.
    + destruct (page_raises (selectors (spider (crawl_state r))) response)
        as [e|] eqn:Hraise.
      * destruct (run_step_raised r u response e Hway Hu Hdl Hraise)
          as (r1 & -> & Hurls & Hsels & Hidx & Hpending & Hreq).
        rewrite run_steps_stopped by (apply run_step_nothing_pending; exact Hpending).
        unfold ended. cbn zeta. rewrite Hidx, Hreq.
        split; [exact Hurls|]. split; [exact Hsels|]. split; [exact Hpending|].
        split; [exact Hbefore|].
        right. left. exists u. split; [exact Hu|]. split; [reflexivity|].
        right. exists response, e. auto.
      * destruct (run_step_served r u response Hway Hu Hdl Hraise)
          as (r1 & -> & Hspider & _ & Hreq1 & Hcase).
        pose proof (parse_advances (spider (crawl_state r)) response) as Hadv.
        destruct (parse (spider (crawl_state r)) response) as [[self' requests] log].
        cbn [fst] in Hspider. subst self'.
        destruct Hadv as (Hurls & Hsels & Hidx & _).
        assert (Hbefore1 : forall j v,
                   (j < S (current_url_index (spider (crawl_state r))))%nat ->
                   urls (spider (crawl_state r)) !! j = Some v ->
                   served (selectors (spider (crawl_state r))) v).
        { intros j v Hj Hv.
          destruct (decide (j = current_url_index (spider (crawl_state r))))
            as [-> | Hne].
          - assert (v = u) as -> by congruence. exists response. auto.
          - apply (Hbefore j v); [lia | exact Hv]. }
        assert (Hstopped : pending (crawl_state r1) = [] ->
                  ended_at (urls (spider (crawl_state r)))
                           (selectors (spider (crawl_state r)))
                           (S (current_url_index (spider (crawl_state r))))
                           (take (S (current_url_index (spider (crawl_state r))))
                                 (urls (spider (crawl_state r)))) ->
                  ended (urls (spider (crawl_state r)))
                        (selectors (spider (crawl_state r))) (run_steps n r1)).
        { intros Hpending Hat.
          rewrite run_steps_stopped by (apply run_step_nothing_pending; exact Hpending).
          unfold ended. cbn zeta. rewrite Hidx, Hreq1. auto. }
        destruct (urls (spider (crawl_state r))
                    !! S (current_url_index (spider (crawl_state r))))
          as [next_url|] eqn:Hnext.
        -- destruct Hcase as [(_ & _ & Hway1) | (Hbad & Hpending)].
           ++ rewrite <- Hurls, <- Hsels. apply IH; [exact Hway1| |].
              ** rewrite Hidx, Hurls. lia.
              ** rewrite Hidx, Hurls, Hsels. exact Hbefore1.
           ++ apply Hstopped; [exact Hpending|].
              right. right. exists next_url. auto.
        -- apply Hstopped; [exact Hcase|].
           apply lookup_ge_None in Hnext. apply lookup_lt_Some in Hu.
           left. split; [lia|]. apply take_ge. lia.
    + rewrite (run_step_failed r u reason Hway Hu Hdl).
      rewrite run_steps_stopped by reflexivity.
      unfold ended. cbn [crawl_state spider pending requested].
      split; [reflexivity|]. split; [reflexivity|]. split; [reflexivity|].
      split; [exact Hbefore|].
      right. left. exists u. split; [exact Hu|]. split; [reflexivity|].
      left. exists reason. exact Hdl.
Qed.





End Runs.




